(** * GeminiHelper: the chat adapter of [bot/gemini_helper.py]

    The adapter keeps one dictionary, [conversations], from chat id to the
    list of prior turns, and delegates everything else to the vendor SDK.
    The SDK is opaque: it is taken here as an interface ([GenerativeModel])
    and every statement is proved for an arbitrary implementation of it.
    Logging calls have no influence on results or on the dictionary and are
    left out. *)

From stdpp Require Import gmap strings list fin_maps pretty.

(** ** Python values, exceptions and results *)

(** A raised exception: its class, whether that class derives from
    [Exception] (most do; [asyncio.CancelledError], [KeyboardInterrupt],
    [GeneratorExit] and [SystemExit] derive from [BaseException] only),
    [str(e)], and the [__cause__] set by [raise ... from e]. *)
#[warnings="-register-all"]
Inductive PyExc : Type :=
  mkExc (exc_class : string) (exc_from_Exception : bool) (exc_msg : string)
        (exc_cause : option PyExc).

Definition exc_str (e : PyExc) : string :=
  match e with mkExc _ _ msg _ => msg end.

Definition exc_kind (e : PyExc) : string :=
  match e with mkExc cls _ _ _ => cls end.

Definition cause_of (e : PyExc) : option PyExc :=
  match e with mkExc _ _ _ c => c end.

(** [isinstance(e, Exception)] *)
Definition is_exception (e : PyExc) : bool :=
  match e with mkExc _ b _ _ => b end.

Inductive result (A : Type) : Type :=
  | Raise (e : PyExc)
  | Return (a : A).
Arguments Raise {A} e.
Arguments Return {A} a.

(** The values an entry of the configuration dictionary holds for the key
    read here: the API key is a string, or [None] when the environment
    did not provide one. *)
Inductive PyVal : Type :=
  | PyNone
  | PyStr (s : string).

(** Python truthiness, as used by [if not api_key]. *)
Definition truthy (v : PyVal) : bool :=
  match v with
  | PyNone => false
  | PyStr s => negb (String.eqb s "")
  end.

(** ** The vendor SDK as an interface *)

(** One turn of a conversation. *)
Record Content : Type := mkContent { role : string; parts : string }.

(** A response object or a streamed chunk: reading [.text] may raise. *)
Record Response : Type := mkResponse { text : result string }.

(** What one [__anext__] on the response stream does. *)
Inductive StreamEvent : Type :=
  | Chunk (chunk : Response)
  | StreamRaise (e : PyExc)
  | StreamEnd.

(** The object returned by [send_message_async(query, stream=True)]:
    [events i] is the outcome of the [i]-th [__anext__]; [final_history] is
    [chat.history] once the stream has been consumed. The sequence may be
    infinite. *)
Record ResponseStream : Type := mkStream {
  events : nat → StreamEvent;
  final_history : list Content
}.

(** The three entry points of the SDK the adapter calls. A chat session is
    started from a history and receives one message, so the session's
    calls are functions of that history and the query:
    - [send_message_async history query]: the response and [chat.history]
      after the exchange;
    - [send_message_stream history query]: the same with [stream=True];
    - [count_tokens_async contents]: [total_tokens].
    Each adapter operation calls each entry point at most once. The
    session builds its own list from the history it is given, so the list
    stored in [conversations] is not shared with it. *)
Record GenerativeModel : Type := mkModel {
  send_message_async : list Content → string → result (Response * list Content);
  send_message_stream : list Content → string → result ResponseStream;
  count_tokens_async : list Content → result Z
}.

(** ** The adapter object *)

Record GeminiHelper : Type := mkHelper {
  model : GenerativeModel;
  config : gmap string PyVal;
  conversations : gmap Z (list Content)
}.

Definition with_conversations (self : GeminiHelper)
    (c : gmap Z (list Content)) : GeminiHelper :=
  {| model := model self; config := config self; conversations := c |}.

(** ** A state-and-exception monad for method bodies

    A method runs on [self], may mutate it, and returns or raises. A
    mutation made before an exception is raised stays. *)
Definition M (A : Type) : Type := GeminiHelper → result A * GeminiHelper.

Definition ret {A} (a : A) : M A := λ self, (Return a, self).

Definition bind {A B} (m : M A) (k : A → M B) : M B :=
  λ self,
    match m self with
    | (Return a, self') => k a self'
    | (Raise e, self') => (Raise e, self')
    end.

Definition raise {A} (e : PyExc) : M A := λ self, (Raise e, self).

(** [await] of an SDK call: its result or its exception. *)
Definition await {A} (r : result A) : M A := λ self, (r, self).

(** [try: body except Exception as e: handler e]. The clause catches the
    instances of [Exception]; any other exception leaves the statement as
    it is. *)
Definition try_except {A} (body : M A) (handler : PyExc → M A) : M A :=
  λ self,
    match body self with
    | (Return a, self') => (Return a, self')
    | (Raise e, self') =>
        if is_exception e then handler e self' else (Raise e, self')
    end.

Definition get_model : M GenerativeModel := λ self, (Return (model self), self).

Global Instance M_ret : MRet M := @ret.
Global Instance M_bind : MBind M := λ A B k m, bind m k.

(** ** Dictionary accesses on [self.conversations] *)

(** [if chat_id not in self.conversations: self.conversations[chat_id] = []] *)
Definition ensure_conversation (chat_id : Z) : M unit :=
  λ self,
    if decide (is_Some (conversations self !! chat_id))
    then (Return tt, self)
    else (Return tt, with_conversations self (<[chat_id := []]> (conversations self))).

(** [self.conversations.get(chat_id, [])] *)
Definition conversations_get (chat_id : Z) : M (list Content) :=
  λ self, (Return (default [] (conversations self !! chat_id)), self).

(** [self.conversations[chat_id]], a [KeyError] when the key is absent. *)
Definition conversations_getitem (chat_id : Z) : M (list Content) :=
  λ self,
    match conversations self !! chat_id with
    | Some history => (Return history, self)
    | None => (Raise (mkExc "KeyError" true (pretty chat_id) None), self)
    end.

(** [self.conversations[chat_id] = history] *)
Definition conversations_setitem (chat_id : Z) (history : list Content) : M unit :=
  λ self,
    (Return tt, with_conversations self (<[chat_id := history]> (conversations self))).

(** ** The methods *)

Definition newline : string := String (Ascii.ascii_of_nat 10) "".

Definition error_banner : string :=
  "⚠️ An error occurred while communicating with Gemini. ⚠️" +:+ newline.

(** [Exception(f"...\n{str(e)}") from e] *)
Definition wrap (e : PyExc) : PyExc :=
  mkExc "Exception" true (error_banner +:+ exc_str e) (Some e).

(** [GeminiHelper.__init__]; [the_model] stands for
    [genai.GenerativeModel('gemini-1.5-pro-latest')]. *)
Definition init (the_model : GenerativeModel) (cfg : gmap string PyVal)
    : result GeminiHelper :=
  let api_key := default PyNone (cfg !! "api_key") in
  if negb (truthy api_key)
  then Raise (mkExc "ValueError" true
                "Gemini API key is missing from the configuration." None)
  else Return {| model := the_model; config := cfg; conversations := ∅ |}.

(** [GeminiHelper.get_chat_response] *)
Definition get_chat_response (chat_id : Z) (query : string) : M (string * string) :=
  ensure_conversation chat_id ;;
  try_except
    (sdk ← get_model ;
     history ← conversations_get chat_id ;
     '(response, chat_history) ← await (send_message_async sdk history query) ;
     answer ← await (text response) ;
     conversations_setitem chat_id chat_history ;;
     total_tokens ← await (count_tokens_async sdk chat_history) ;
     ret (answer, pretty total_tokens))
    (λ e, raise (wrap e)).

(** [GeminiHelper.reset_chat_history] *)
Definition reset_chat_history (chat_id : Z) : M unit :=
  λ self,
    if decide (is_Some (conversations self !! chat_id))
    then (Return tt, with_conversations self (delete chat_id (conversations self)))
    else (Return tt, self).

(** [GeminiHelper.get_conversation_stats] *)
Definition get_conversation_stats (chat_id : Z) : M (nat * Z) :=
  ensure_conversation chat_id ;;
  sdk ← get_model ;
  contents ← conversations_getitem chat_id ;
  total_tokens ← await (count_tokens_async sdk contents) ;
  history ← conversations_getitem chat_id ;
  ret (length history, total_tokens).

(** ** The streaming method as a generator

    [get_chat_response_stream] is an async generator: calling it runs none
    of its body, and each resumption runs the body up to the next [yield],
    to the end of the body, or to an exception. The generator object is a
    state machine; one [step] performs at most one [__anext__] on the
    upstream stream, so that a resumption is a finite or infinite run of
    steps. *)

Inductive GenState : Type :=
  | GenCreated
      (* the body has not started *)
  | GenStreaming (stream : ResponseStream) (i : nat) (answer : string)
      (* inside [async for], about to ask the stream for chunk [i] *)
  | GenSuspendedFinal
      (* suspended at the last [yield] *)
  | GenClosed.

Inductive Signal : Type :=
  | Silent
  | Yield (answer : string) (status : string)
  | StopAsyncIteration.

(** One step of the body of [GeminiHelper.get_chat_response_stream]. An
    exception leaving the body closes the generator. *)
Definition step (chat_id : Z) (query : string) (g : GenState)
    : M (Signal * GenState) :=
  match g with
  | GenCreated =>
      ensure_conversation chat_id ;;
      try_except
        (sdk ← get_model ;
         history ← conversations_get chat_id ;
         response_stream ← await (send_message_stream sdk history query) ;
         ret (Silent, GenStreaming response_stream 0 ""))
        (λ e, raise (wrap e))
  | GenStreaming response_stream i answer =>
      try_except
        (match events response_stream i with
         | Chunk chunk =>
             chunk_text ← await (text chunk) ;
             if decide (chunk_text = "")
             then ret (Silent, GenStreaming response_stream (S i) answer)
             else
               let answer := answer +:+ chunk_text in
               ret (Yield answer "not_finished",
                    GenStreaming response_stream (S i) answer)
         | StreamRaise e => raise e
         | StreamEnd =>
             sdk ← get_model ;
             conversations_setitem chat_id (final_history response_stream) ;;
             total_tokens ← await (count_tokens_async sdk (final_history response_stream)) ;
             ret (Yield answer (pretty total_tokens), GenSuspendedFinal)
         end)
        (λ e, raise (wrap e))
  | GenSuspendedFinal => ret (StopAsyncIteration, GenClosed)
  | GenClosed => ret (StopAsyncIteration, GenClosed)
  end.

(** How a consumer's [async for] over the generator ends. *)
Inductive Outcome : Type :=
  | Pending                 (* the generator has not finished yet *)
  | Exhausted               (* [StopAsyncIteration]: the loop ends *)
  | Failed (e : PyExc).     (* the exception reaches the consumer *)

(** Everything a consumer observes when it drains the generator for at
    most [fuel] steps: the pairs yielded, how the iteration ended, and the
    adapter afterwards. *)
Fixpoint run (chat_id : Z) (query : string) (fuel : nat) (g : GenState)
    (self : GeminiHelper) : list (string * string) * Outcome * GeminiHelper :=
  match fuel with
  | O => ([], Pending, self)
  | S fuel' =>
      match step chat_id query g self with
      | (Return (Silent, g'), self') => run chat_id query fuel' g' self'
      | (Return (Yield answer status, g'), self') =>
          let '(ys, o, self'') := run chat_id query fuel' g' self' in
          ((answer, status) :: ys, o, self'')
      | (Return (StopAsyncIteration, _), self') => ([], Exhausted, self')
      | (Raise e, self') => ([], Failed e, self')
      end
  end.

(** [get_chat_response_stream(chat_id, query)] drained with [fuel]. *)
Definition get_chat_response_stream (chat_id : Z) (query : string) (fuel : nat)
    (self : GeminiHelper) : list (string * string) * Outcome * GeminiHelper :=
  run chat_id query fuel GenCreated self.

(** ** Concrete SDK behaviours, used to evaluate the methods *)

Definition user_turn (query : string) : Content :=
  {| role := "user"; parts := query |}.
Definition model_turn (answer : string) : Content :=
  {| role := "model"; parts := answer |}.

Definition stream_of (chunks : list string) (history : list Content)
    : ResponseStream :=
  {| events := λ i,
       match chunks !! i with
       | Some t => Chunk {| text := Return t |}
       | None => StreamEnd
       end;
     final_history := history |}.

(** Answers every query with [reply], streamed as [chunks], and counts one
    token per stored turn. *)
Definition canned_model (reply : string) (chunks : list string) : GenerativeModel :=
  {| send_message_async := λ history query,
       Return ({| text := Return reply |},
               history ++ [user_turn query; model_turn reply]);
     send_message_stream := λ history query,
       Return (stream_of chunks (history ++ [user_turn query; model_turn reply]));
     count_tokens_async := λ contents, Return (Z.of_nat (length contents)) |}.

Definition connection_error : PyExc :=
  mkExc "ConnectionError" true "service unavailable" None.

(** Every call to the service raises. *)
Definition unreachable_model : GenerativeModel :=
  {| send_message_async := λ _ _, Raise connection_error;
     send_message_stream := λ _ _, Raise connection_error;
     count_tokens_async := λ _, Raise connection_error |}.

Definition fresh_helper (sdk : GenerativeModel) : GeminiHelper :=
  {| model := sdk; config := {[ "api_key" := PyStr "k" ]}; conversations := ∅ |}.

(** A helper that already holds one exchange for chat 7. *)
Definition talked_helper (sdk : GenerativeModel) : GeminiHelper :=
  {| model := sdk; config := {[ "api_key" := PyStr "k" ]};
     conversations := {[ 7%Z := [user_turn "hi"; model_turn "hello"] ]} |}.

(** ** Auxiliary notions used in the statements *)

(** The dictionary after [ensure_conversation]. *)
Definition ensured (chat_id : Z) (c : gmap Z (list Content)) : gmap Z (list Content) :=
  match c !! chat_id with
  | Some _ => c
  | None => <[chat_id := []]> c
  end.

(** The configuration has no usable [api_key]: the key is absent or bound
    to [None] (missing), or bound to the empty string. *)
Definition api_key_missing (cfg : gmap string PyVal) : Prop :=
  cfg !! "api_key" = None ∨ cfg !! "api_key" = Some PyNone.

Definition api_key_empty (cfg : gmap string PyVal) : Prop :=
  cfg !! "api_key" = Some (PyStr "").

(** *** What the upstream stream does

    [chunk_text_at s i t]: the [i]-th item of the stream is a chunk whose
    text reads [t]. [delivers s ts]: the stream is finite and healthy, it
    hands out chunks with texts [ts] and then ends. [breaks s ts e]: after
    chunks with texts [ts] the stream raises [e], either from the
    iteration or from reading the next chunk's text. *)
Definition chunk_text_at (s : ResponseStream) (i : nat) (t : string) : Prop :=
  ∃ chunk, events s i = Chunk chunk ∧ text chunk = Return t.

Definition hands_out (s : ResponseStream) (ts : list string) : Prop :=
  ∀ i t, ts !! i = Some t → chunk_text_at s i t.

Definition delivers (s : ResponseStream) (ts : list string) : Prop :=
  hands_out s ts ∧ events s (length ts) = StreamEnd.

Definition breaks (s : ResponseStream) (ts : list string) (e : PyExc) : Prop :=
  hands_out s ts ∧
  (events s (length ts) = StreamRaise e ∨
   ∃ chunk, events s (length ts) = Chunk chunk ∧ text chunk = Raise e).

(** The value of [answer] after chunks with texts [ts], and the texts
    yielded on the way. *)
Fixpoint accumulate (answer : string) (ts : list string) : string :=
  match ts with
  | [] => answer
  | t :: ts =>
      if decide (t = "") then accumulate answer ts else accumulate (answer +:+ t) ts
  end.

Fixpoint partials (answer : string) (ts : list string) : list string :=
  match ts with
  | [] => []
  | t :: ts =>
      if decide (t = "") then partials answer ts
      else (answer +:+ t) :: partials (answer +:+ t) ts
  end.

Definition in_progress (a : string) : string * string := (a, "not_finished").

(** *** Text growth *)

Definition extends (s t : string) : Prop := ∃ u, t = s +:+ u.
Definition strictly_extends (s t : string) : Prop := ∃ u, u ≠ "" ∧ t = s +:+ u.

(** The shape of a streamed sequence in which every text strictly extends
    the one before it, every text is a prefix of the last one, every
    element but the last has status ["in_progress"], and the last element
    carries the token count. *)
Definition each_strictly_extends_previous (ys : list (string * string)) : Prop :=
  ∀ i y y', ys !! i = Some y → ys !! S i = Some y' → strictly_extends y.1 y'.1.

Definition each_prefix_of_last (ys : list (string * string)) : Prop :=
  ∀ y z, y ∈ ys → last ys = Some z → extends y.1 z.1.

Definition in_progress_until_last (ys : list (string * string)) : Prop :=
  ∀ i y, ys !! i = Some y → S i < length ys → y.2 = "in_progress".

Definition last_carries_count (ys : list (string * string)) (total : Z) : Prop :=
  ∃ z, last ys = Some z ∧ z.2 = pretty total.

Definition strictly_growing_in_progress (ys : list (string * string)) (total : Z) : Prop :=
  each_strictly_extends_previous ys ∧
  each_prefix_of_last ys ∧
  in_progress_until_last ys ∧
  last_carries_count ys total.

(** *** Upstream failures

    The history a call forwards to the session. *)
Definition forwarded (self : GeminiHelper) (chat_id : Z) : list Content :=
  default [] (conversations self !! chat_id).

(** The message call of [get_chat_response] fails with [e]: sending
    raises, or reading the text of the response raises. *)
Definition send_fails (self : GeminiHelper) (chat_id : Z) (query : string)
    (e : PyExc) : Prop :=
  send_message_async (model self) (forwarded self chat_id) query = Raise e ∨
  ∃ response chat_history,
    send_message_async (model self) (forwarded self chat_id) query
      = Return (response, chat_history) ∧
    text response = Raise e.

(** The exchange went through and counting the tokens of the new history
    fails with [e]. *)
Definition send_count_fails (self : GeminiHelper) (chat_id : Z) (query : string)
    (e : PyExc) : Prop :=
  ∃ response chat_history answer,
    send_message_async (model self) (forwarded self chat_id) query
      = Return (response, chat_history) ∧
    text response = Return answer ∧
    count_tokens_async (model self) chat_history = Raise e.

(** The message call of [get_chat_response_stream] fails with [e] after
    chunks with texts [ts]: opening the stream raises (then [ts] is
    empty), or the stream breaks. *)
Definition stream_fails (self : GeminiHelper) (chat_id : Z) (query : string)
    (ts : list string) (e : PyExc) : Prop :=
  (send_message_stream (model self) (forwarded self chat_id) query = Raise e ∧ ts = []) ∨
  ∃ s,
    send_message_stream (model self) (forwarded self chat_id) query = Return s ∧
    breaks s ts e.

Definition stream_count_fails (self : GeminiHelper) (chat_id : Z) (query : string)
    (ts : list string) (e : PyExc) : Prop :=
  ∃ s,
    send_message_stream (model self) (forwarded self chat_id) query = Return s ∧
    delivers s ts ∧
    count_tokens_async (model self) (final_history s) = Raise e.

(** The dictionary [after] is [before] except that an empty history was
    created for [chat_id] if it had none: no stored history changed. *)
Definition unchanged_but_entered (chat_id : Z)
    (before after : gmap Z (list Content)) : Prop :=
  (is_Some (before !! chat_id) → after = before) ∧
  (before !! chat_id = None → after = <[chat_id := []]> before) ∧
  (∀ other, default [] (after !! other) = default [] (before !! other)).

(** Error atomicity of [get_chat_response]: a call that raises leaves the
    dictionary exactly as it was. *)
Definition error_atomic (chat_id : Z) (query : string) (self : GeminiHelper) : Prop :=
  ∀ e,
    (get_chat_response chat_id query self).1 = Raise e →
    conversations (get_chat_response chat_id query self).2 = conversations self.

(** ** Notions used for the further properties *)

(** [self'] is [self] except possibly for the entry of [chat_id]. *)
Definition same_elsewhere (chat_id : Z) (self self' : GeminiHelper) : Prop :=
  model self' = model self ∧
  config self' = config self ∧
  ∀ other, other ≠ chat_id → conversations self' !! other = conversations self !! other.

(** The three ways a method touches the dictionary: not at all, by
    creating the empty entry, or by storing a history under [chat_id]. *)
Definition touches_only (chat_id : Z) (c c' : gmap Z (list Content)) : Prop :=
  c' = c ∨ c' = ensured chat_id c ∨ ∃ h, c' = <[chat_id := h]> c.

(** Answers like [canned_model], but counting tokens raises. *)
Definition uncounted_model (reply : string) (chunks : list string) : GenerativeModel :=
  {| send_message_async := send_message_async (canned_model reply chunks);
     send_message_stream := send_message_stream (canned_model reply chunks);
     count_tokens_async := λ _, Raise connection_error |}.

(** A caller sending several queries to one chat, one after the other. *)
Fixpoint send_each (chat_id : Z) (queries : list string) (self : GeminiHelper)
    : GeminiHelper :=
  match queries with
  | [] => self
  | query :: queries => send_each chat_id queries (get_chat_response chat_id query self).2
  end.

(** An SDK whose sessions always answer and return the history they were
    given followed by the two turns of the exchange, and whose token count
    always returns. *)
Definition appends_exchange (sdk : GenerativeModel) : Prop :=
  ∀ history query, ∃ response answer user_msg reply,
    send_message_async sdk history query
      = Return (response, history ++ [user_msg; reply]) ∧
    text response = Return answer.

Definition counts_tokens (sdk : GenerativeModel) : Prop :=
  ∀ contents, ∃ total, count_tokens_async sdk contents = Return total.

(** The chunk texts joined in order. *)
Definition concat_texts (ts : list string) : string := foldr String.append "" ts.

(** The stream hands out [chunks] and then raises. *)
Definition interrupted_stream (chunks : list string) : ResponseStream :=
  {| events := λ i,
       match chunks !! i with
       | Some t => Chunk {| text := Return t |}
       | None => StreamRaise connection_error
       end;
     final_history := [] |}.

Definition interrupted_model (chunks : list string) : GenerativeModel :=
  {| send_message_async := λ _ _, Raise connection_error;
     send_message_stream := λ _ _, Return (interrupted_stream chunks);
     count_tokens_async := λ contents, Return (Z.of_nat (length contents)) |}.

(** A stream that never ends: every item is a readable chunk. *)
Definition endless (s : ResponseStream) : Prop :=
  ∀ i, ∃ t, chunk_text_at s i t.

Definition endless_model (t : string) : GenerativeModel :=
  {| send_message_async := λ _ _, Raise connection_error;
     send_message_stream := λ _ _,
       Return {| events := λ _, Chunk {| text := Return t |}; final_history := [] |};
     count_tokens_async := λ contents, Return (Z.of_nat (length contents)) |}.

(** ** Exceptions that pass the handler *)

(** What leaves the [try] statement of [get_chat_response] and of
    [get_chat_response_stream] when its body raises [e]: the wrapped
    exception for an instance of [Exception], [e] itself otherwise. *)
Definition reraised (e : PyExc) : PyExc :=
  if is_exception e then wrap e else e.

(** The task running the call is cancelled while it awaits the service. *)
Definition cancelled_error : PyExc := mkExc "CancelledError" false "" None.

Definition cancelled_model : GenerativeModel :=
  {| send_message_async := λ _ _, Raise cancelled_error;
     send_message_stream := λ _ _, Raise cancelled_error;
     count_tokens_async := λ _, Raise cancelled_error |}.

(** Every exception a send raises is a wrapped one. *)
Definition errors_always_wrapped (chat_id : Z) (query : string)
    (self : GeminiHelper) : Prop :=
  ∀ x, (get_chat_response chat_id query self).1 = Raise x → ∃ e, x = wrap e.

(** The task is cancelled while the generator awaits the chunk after
    [chunks]. *)
Definition cancelled_stream_model (chunks : list string) : GenerativeModel :=
  {| send_message_async := λ _ _, Raise cancelled_error;
     send_message_stream := λ _ _,
       Return {| events := λ i,
                   match chunks !! i with
                   | Some t => Chunk {| text := Return t |}
                   | None => StreamRaise cancelled_error
                   end;
                 final_history := [] |};
     count_tokens_async := λ _, Raise cancelled_error |}.

(** * Properties *)

(** ** The dictionary accesses *)

Lemma ensure_conversation_eq chat_id self :
  ensure_conversation chat_id self
  = (Return tt, with_conversations self (ensured chat_id (conversations self))).
Proof.
  unfold ensure_conversation, ensured.
  destruct (conversations self !! chat_id) as [h|] eqn:E.
  - rewrite decide_True by eauto. by destruct self.
  - rewrite decide_False; [done|]. by intros [? ?].
Qed.

Lemma ensured_get chat_id (c : gmap Z (list Content)) :
  default [] (ensured chat_id c !! chat_id) = default [] (c !! chat_id).
Proof.
  unfold ensured. destruct (c !! chat_id) eqn:E; [by rewrite E|].
  by rewrite lookup_insert_eq.
Qed.

Lemma ensured_is_Some chat_id (c : gmap Z (list Content)) :
  ensured chat_id c !! chat_id = Some (default [] (c !! chat_id)).
Proof.
  unfold ensured. destruct (c !! chat_id) eqn:E; [by rewrite E|].
  by rewrite lookup_insert_eq.
Qed.

Lemma ensured_other chat_id other (c : gmap Z (list Content)) :
  other ≠ chat_id → ensured chat_id c !! other = c !! other.
Proof.
  intros Hne. unfold ensured. destruct (c !! chat_id); [done|].
  by rewrite lookup_insert_ne.
Qed.

Lemma ensured_present chat_id (c : gmap Z (list Content)) :
  is_Some (c !! chat_id) → ensured chat_id c = c.
Proof. intros [h Hh]. unfold ensured. by rewrite Hh. Qed.

Lemma ensured_absent chat_id (c : gmap Z (list Content)) :
  c !! chat_id = None → ensured chat_id c = <[chat_id := []]> c.
Proof. intros Hh. unfold ensured. by rewrite Hh. Qed.

Lemma insert_ensured chat_id h (c : gmap Z (list Content)) :
  <[chat_id := h]> (ensured chat_id c) = <[chat_id := h]> c.
Proof.
  unfold ensured. destruct (c !! chat_id); [done|]. by rewrite insert_insert_eq.
Qed.

(** ** [get_chat_response] *)

(** The body of [get_chat_response], case by case on what the SDK does. *)
Lemma get_chat_response_eq chat_id query self :
  get_chat_response chat_id query self =
  let entered := with_conversations self (ensured chat_id (conversations self)) in
  match send_message_async (model self) (default [] (conversations self !! chat_id)) query with
  | Raise e => (Raise (reraised e), entered)
  | Return (response, chat_history) =>
      match text response with
      | Raise e => (Raise (reraised e), entered)
      | Return answer =>
          let updated :=
            with_conversations self (<[chat_id := chat_history]> (conversations self)) in
          match count_tokens_async (model self) chat_history with
          | Raise e => (Raise (reraised e), updated)
          | Return total_tokens => (Return (answer, pretty total_tokens), updated)
          end
      end
  end.
Proof.
  unfold get_chat_response, mbind, M_bind, bind, try_except, reraised.
  rewrite ensure_conversation_eq. cbn.
  rewrite ensured_get.
  destruct (send_message_async _ _ _) as [e|[response chat_history]];
    [by destruct (is_exception e)|].
  cbn. destruct (text response) as [e|answer]; [by destruct (is_exception e)|].
  cbn. rewrite insert_ensured.
  destruct (count_tokens_async _ _) as [e|n]; [by destruct (is_exception e)|done].
Qed.

(** C1. A successful [get_chat_response] forwards the stored history of the
    chat id (the empty history when there is none) and the query to the
    model, stores the history the session returns under the chat id, and
    returns the answer text with the token count the API reports for that
    new history. *)
Theorem get_chat_response_success chat_id query self response chat_history answer total :
  send_message_async (model self) (default [] (conversations self !! chat_id)) query
    = Return (response, chat_history) →
  text response = Return answer →
  count_tokens_async (model self) chat_history = Return total →
  get_chat_response chat_id query self
  = (Return (answer, pretty total),
     with_conversations self (<[chat_id := chat_history]> (conversations self))).
Proof.
  intros Hsend Htext Hcount.
  rewrite get_chat_response_eq. cbn. by rewrite Hsend, Htext, Hcount.
Qed.

Lemma get_chat_response_success_witness :
  get_chat_response 7 "hi" (fresh_helper (canned_model "hello" ["hel"; "lo"]))
  = (Return ("hello", "2"),
     with_conversations (fresh_helper (canned_model "hello" ["hel"; "lo"]))
       (<[7%Z := [user_turn "hi"; model_turn "hello"]]> ∅)).
Proof.
  apply (get_chat_response_success 7 "hi"
           (fresh_helper (canned_model "hello" ["hel"; "lo"]))
           {| text := Return "hello" |}
           [user_turn "hi"; model_turn "hello"] "hello" 2); reflexivity.
Defined.

(** ** [reset_chat_history] *)

Lemma reset_chat_history_eq chat_id self :
  reset_chat_history chat_id self
  = (Return tt, with_conversations self (delete chat_id (conversations self))).
Proof.
  unfold reset_chat_history.
  destruct (decide (is_Some (conversations self !! chat_id))) as [Hin|Hout]; [done|].
  rewrite delete_id; [by destruct self|].
  destruct (conversations self !! chat_id) eqn:E; [|done]. destruct Hout; eauto.
Qed.

(** ** [get_conversation_stats] *)

Lemma get_conversation_stats_eq chat_id self :
  get_conversation_stats chat_id self =
  let entered := with_conversations self (ensured chat_id (conversations self)) in
  let history := default [] (conversations self !! chat_id) in
  match count_tokens_async (model self) history with
  | Raise e => (Raise e, entered)
  | Return total_tokens => (Return (length history, total_tokens), entered)
  end.
Proof.
  unfold get_conversation_stats, mbind, M_bind, bind.
  rewrite ensure_conversation_eq. cbn.
  unfold conversations_getitem. cbn. rewrite ensured_is_Some.
  destruct (count_tokens_async _ _) as [e|n]; [done|].
  cbn. by rewrite ensured_is_Some.
Qed.

(** ** The first step of the generator *)

Lemma step_created_eq chat_id query self :
  step chat_id query GenCreated self =
  let entered := with_conversations self (ensured chat_id (conversations self)) in
  match send_message_stream (model self) (default [] (conversations self !! chat_id)) query with
  | Raise e => (Raise (reraised e), entered)
  | Return response_stream => (Return (Silent, GenStreaming response_stream 0 ""), entered)
  end.
Proof.
  unfold step, mbind, M_bind, bind, try_except, reraised.
  rewrite ensure_conversation_eq. cbn. rewrite ensured_get.
  destruct (send_message_stream _ _ _) as [e|s]; [by destruct (is_exception e)|done].
Qed.

(** C5. [reset_chat_history] removes the entry of the chat id and nothing
    else, changes nothing when the id has no entry, and the next access to
    that conversation (a send, a streamed send, or the statistics) starts
    from the empty history whatever was stored before. *)
Theorem reset_chat_history_spec chat_id self :
  let self' := (reset_chat_history chat_id self).2 in
  (reset_chat_history chat_id self).1 = Return tt ∧
  conversations self' = delete chat_id (conversations self) ∧
  conversations self' !! chat_id = None ∧
  (∀ other, other ≠ chat_id → conversations self' !! other = conversations self !! other) ∧
  (conversations self !! chat_id = None → self' = self) ∧
  (conversations_get chat_id (ensure_conversation chat_id self').2).1 = Return [] ∧
  (∀ query response chat_history answer total,
     send_message_async (model self) [] query = Return (response, chat_history) →
     text response = Return answer →
     count_tokens_async (model self) chat_history = Return total →
     get_chat_response chat_id query self'
     = (Return (answer, pretty total),
        with_conversations self (<[chat_id := chat_history]> (conversations self)))) ∧
  (∀ query response_stream,
     send_message_stream (model self) [] query = Return response_stream →
     step chat_id query GenCreated self'
     = (Return (Silent, GenStreaming response_stream 0 ""),
        with_conversations self (<[chat_id := []]> (conversations self)))) ∧
  (∀ total,
     count_tokens_async (model self) [] = Return total →
     (get_conversation_stats chat_id self').1 = Return (0, total)).
Proof.
  rewrite reset_chat_history_eq. cbv zeta. cbn [fst snd].
  assert (Hgone : delete chat_id (conversations self) !! chat_id = None)
    by apply lookup_delete_eq.
  repeat split.
  - done.
  - intros other Hne. by apply lookup_delete_ne.
  - intros Habs. rewrite delete_id by done. by destruct self.
  - rewrite ensure_conversation_eq. cbn. by rewrite ensured_get, Hgone.
  - intros query response chat_history answer total Hsend Htext Hcount.
    rewrite get_chat_response_eq. cbn. rewrite Hgone. cbn.
    rewrite Hsend, Htext, Hcount. by rewrite insert_delete_eq.
  - intros query response_stream Hsend.
    rewrite step_created_eq. cbn. rewrite Hgone. cbn. rewrite Hsend.
    rewrite ensured_absent by done. by rewrite insert_delete_eq.
  - intros total Hcount.
    rewrite get_conversation_stats_eq. cbn. rewrite Hgone. cbn. by rewrite Hcount.
Qed.

Lemma reset_chat_history_spec_witness :
  conversations (reset_chat_history 7 (talked_helper (canned_model "yo" ["yo"]))).2 !! 7%Z
    = None ∧
  get_chat_response 7 "again" (reset_chat_history 7 (talked_helper (canned_model "yo" ["yo"]))).2
  = (Return ("yo", "2"),
     with_conversations (talked_helper (canned_model "yo" ["yo"]))
       (<[7%Z := [user_turn "again"; model_turn "yo"]]>
          (conversations (talked_helper (canned_model "yo" ["yo"]))))).
Proof.
  destruct (reset_chat_history_spec 7 (talked_helper (canned_model "yo" ["yo"])))
    as (_ & _ & Hgone & _ & _ & _ & Hsend & _ & _).
  split; [exact Hgone|].
  apply (Hsend "again" {| text := Return "yo" |}
           [user_turn "again"; model_turn "yo"] "yo" 2%Z); reflexivity.
Defined.

(** C6. After a successful [get_chat_response], when the session returns
    the forwarded history extended by the exchange (the user's message and
    the model's reply), the history stored for the chat id is two turns
    longer than the one stored before the call (an absent entry counting as
    the empty history). *)
Theorem get_chat_response_length chat_id query self response user_msg reply r :
  send_message_async (model self) (default [] (conversations self !! chat_id)) query
    = Return (response, default [] (conversations self !! chat_id) ++ [user_msg; reply]) →
  (get_chat_response chat_id query self).1 = Return r →
  ∃ stored,
    conversations (get_chat_response chat_id query self).2 !! chat_id = Some stored ∧
    length stored = length (default [] (conversations self !! chat_id)) + 2.
Proof.
  intros Hsend. rewrite get_chat_response_eq. cbv zeta. rewrite Hsend.
  destruct (text response) as [e|answer]; [done|].
  destruct (count_tokens_async _ _) as [e|total]; [done|].
  intros _. eexists. split; [apply lookup_insert_eq|].
  by rewrite length_app.
Qed.

Lemma get_chat_response_length_witness :
  ∃ stored,
    conversations
      (get_chat_response 7 "more" (talked_helper (canned_model "ok" ["ok"]))).2 !! 7%Z
      = Some stored ∧
    length stored = 2 + 2.
Proof.
  apply (get_chat_response_length 7 "more" (talked_helper (canned_model "ok" ["ok"]))
           {| text := Return "ok" |} (user_turn "more") (model_turn "ok") ("ok", "4"));
    reflexivity.
Defined.

(** C7. [get_conversation_stats] returns the number of turns stored for the
    chat id together with the token count the API reports for that stored
    history; for an id without stored history the number of turns is 0. *)
Theorem get_conversation_stats_spec chat_id self total :
  count_tokens_async (model self) (default [] (conversations self !! chat_id)) = Return total →
  (get_conversation_stats chat_id self).1
    = Return (length (default [] (conversations self !! chat_id)), total) ∧
  (conversations self !! chat_id = None →
   (get_conversation_stats chat_id self).1 = Return (0, total)).
Proof.
  intros Hcount. rewrite get_conversation_stats_eq. cbv zeta. rewrite Hcount.
  split; [done|]. by intros ->.
Qed.

Lemma get_conversation_stats_spec_witness :
  (get_conversation_stats 7 (talked_helper (canned_model "ok" ["ok"]))).1 = Return (2, 2%Z) ∧
  (get_conversation_stats 8 (talked_helper (canned_model "ok" ["ok"]))).1 = Return (0, 0%Z).
Proof.
  split.
  - apply (get_conversation_stats_spec 7 (talked_helper (canned_model "ok" ["ok"])) 2%Z).
    reflexivity.
  - apply (get_conversation_stats_spec 8 (talked_helper (canned_model "ok" ["ok"])) 0%Z);
      reflexivity.
Defined.

(** C10. [get_conversation_stats] on a chat id without stored history
    changes the dictionary: it leaves an empty history under that id,
    whether or not the token count succeeds, and every other id keeps what
    it had. *)
Theorem get_conversation_stats_inserts chat_id self :
  conversations self !! chat_id = None →
  let self' := (get_conversation_stats chat_id self).2 in
  conversations self' = <[chat_id := []]> (conversations self) ∧
  conversations self' !! chat_id = Some [] ∧
  conversations self' ≠ conversations self ∧
  (∀ other, other ≠ chat_id → conversations self' !! other = conversations self !! other).
Proof.
  intros Habs. rewrite get_conversation_stats_eq. cbv zeta.
  assert (Hst : (match count_tokens_async (model self) (default [] (conversations self !! chat_id)) with
                 | Raise e =>
                     (Raise e, with_conversations self (ensured chat_id (conversations self)))
                 | Return total_tokens =>
                     (Return (length (default [] (conversations self !! chat_id)), total_tokens),
                      with_conversations self (ensured chat_id (conversations self)))
                 end).2 = with_conversations self (<[chat_id := []]> (conversations self))).
  { rewrite ensured_absent by done. by destruct (count_tokens_async _ _). }
  rewrite Hst. cbn. split_and!.
  - done.
  - apply lookup_insert_eq.
  - intros Heq. apply (f_equal (λ c, c !! chat_id)) in Heq.
    rewrite lookup_insert_eq, Habs in Heq. done.
  - intros other Hne. by apply lookup_insert_ne.
Qed.

Lemma get_conversation_stats_inserts_witness :
  conversations (get_conversation_stats 8 (talked_helper unreachable_model)).2
  = <[8%Z := []]> (conversations (talked_helper unreachable_model)).
Proof.
  apply (get_conversation_stats_inserts 8 (talked_helper unreachable_model)).
  reflexivity.
Defined.

(** C8. Constructing the adapter raises exactly when the configuration has
    no [api_key] (absent or [None]) or an empty one; otherwise it succeeds
    with the given configuration and an empty [conversations]. *)
Theorem init_spec sdk cfg :
  ((∃ e, init sdk cfg = Raise e) ↔ api_key_missing cfg ∨ api_key_empty cfg) ∧
  ((∃ key, cfg !! "api_key" = Some (PyStr key) ∧ key ≠ "") ↔
   init sdk cfg = Return {| model := sdk; config := cfg; conversations := ∅ |}) ∧
  (∀ e, init sdk cfg = Raise e → exc_kind e = "ValueError").
Proof.
  unfold init, api_key_missing, api_key_empty.
  destruct (cfg !! "api_key") as [[|key]|] eqn:E; cbn.
  - split_and!; [split; eauto | split; [intros (? & ? & ?); done | done] | by intros ? [= <-]].
  - destruct (String.eqb_spec key "") as [->|Hne]; cbn.
    + split_and!; [split; eauto | split; [intros (? & [= <-] & ?); done | done]
                  | by intros ? [= <-]].
    + split_and!.
      * split; [intros [? ?]; done | intros [[?|?]|[= ?]]; done].
      * split; eauto.
      * done.
  - split_and!; [split; eauto | split; [intros (? & ? & ?); done | done] | by intros ? [= <-]].
Qed.

Lemma init_spec_witness :
  (∃ e, init unreachable_model ∅ = Raise e) ∧
  (∃ e, init unreachable_model {[ "api_key" := PyStr "" ]} = Raise e) ∧
  init unreachable_model {[ "api_key" := PyStr "k" ]} = Return (fresh_helper unreachable_model).
Proof.
  split_and!.
  - apply (init_spec unreachable_model ∅). left. left. reflexivity.
  - apply (init_spec unreachable_model {[ "api_key" := PyStr "" ]}). right. reflexivity.
  - apply (init_spec unreachable_model {[ "api_key" := PyStr "k" ]}).
    exists "k". split; [reflexivity|discriminate].
Defined.

(** ** Strings *)

Lemma string_app_assoc (a b c : string) : (a +:+ b) +:+ c = a +:+ (b +:+ c).
Proof.
  induction a as [|x a IH]; [done|].
  cbv [String.append] in *. fold String.append in *. by rewrite IH.
Qed.

Lemma string_app_nil_r (a : string) : a +:+ "" = a.
Proof.
  induction a as [|x a IH]; [done|].
  cbv [String.append] in *. fold String.append in *. by rewrite IH.
Qed.

Lemma string_app_same_inv (a u : string) : a +:+ u = a → u = "".
Proof.
  induction a as [|x a IH]; [done|].
  cbv [String.append] in *. fold String.append in *. intros [= H]. auto.
Qed.

Lemma extends_refl a : extends a a.
Proof. exists "". by rewrite string_app_nil_r. Qed.

Lemma extends_trans a b c : extends a b → extends b c → extends a c.
Proof. intros [u ->] [v ->]. exists (u +:+ v). apply string_app_assoc. Qed.

Lemma strictly_extends_extends a b : strictly_extends a b → extends a b.
Proof. intros (u & _ & ->). by exists u. Qed.

Lemma strictly_extends_ne a b : strictly_extends a b → a ≠ b.
Proof. intros (u & Hu & ->) Heq. symmetry in Heq. by apply string_app_same_inv in Heq. Qed.

(** ** The generator, step by step *)

Lemma step_chunk chat_id query s i answer self chunk t :
  events s i = Chunk chunk → text chunk = Return t →
  step chat_id query (GenStreaming s i answer) self =
  if decide (t = "")
  then (Return (Silent, GenStreaming s (S i) answer), self)
  else (Return (Yield (answer +:+ t) "not_finished",
                GenStreaming s (S i) (answer +:+ t)), self).
Proof.
  intros Hev Htext. unfold step, try_except, mbind, M_bind, bind, await.
  rewrite Hev, Htext. by destruct (decide (t = "")).
Qed.

Lemma step_break chat_id query s i answer self e :
  (events s i = StreamRaise e ∨ ∃ chunk, events s i = Chunk chunk ∧ text chunk = Raise e) →
  step chat_id query (GenStreaming s i answer) self = (Raise (reraised e), self).
Proof.
  intros [Hev|(chunk & Hev & Htext)];
    unfold step, try_except, mbind, M_bind, bind, await, reraised; rewrite Hev.
  - cbn. by destruct (is_exception e).
  - rewrite Htext. by destruct (is_exception e).
Qed.

Lemma step_end chat_id query s i answer self :
  events s i = StreamEnd →
  step chat_id query (GenStreaming s i answer) self =
  let updated := with_conversations self (<[chat_id := final_history s]> (conversations self)) in
  match count_tokens_async (model self) (final_history s) with
  | Raise e => (Raise (reraised e), updated)
  | Return total_tokens => (Return (Yield answer (pretty total_tokens), GenSuspendedFinal), updated)
  end.
Proof.
  intros Hev. unfold step, try_except, mbind, M_bind, bind, await, reraised.
  rewrite Hev. cbn.
  destruct (count_tokens_async _ _) as [e|total]; [by destruct (is_exception e)|done].
Qed.

(** Draining the generator across chunks whose texts read [ts]. *)
Lemma run_chunks chat_id query s self ts :
  ∀ i answer fuel,
    (∀ k t, ts !! k = Some t → chunk_text_at s (i + k) t) →
    run chat_id query (length ts + fuel) (GenStreaming s i answer) self =
    let rest :=
      run chat_id query fuel (GenStreaming s (i + length ts) (accumulate answer ts)) self in
    ((in_progress <$> partials answer ts) ++ rest.1.1, rest.1.2, rest.2).
Proof.
  induction ts as [|t ts IH]; intros i answer fuel Hts.
  - cbn [length accumulate partials fmap list_fmap app]. rewrite Nat.add_0_r. cbn.
    by destruct (run _ _ _ _ _) as [[? ?] ?].
  - destruct (Hts 0 t eq_refl) as (chunk & Hev & Htext).
    rewrite Nat.add_0_r in Hev.
    assert (Hts' : ∀ k t', ts !! k = Some t' → chunk_text_at s (S i + k) t').
    { intros k t' Hk. specialize (Hts (S k) t' Hk). by rewrite Nat.add_succ_r in Hts. }
    cbn [length Nat.add run]. rewrite (step_chunk _ _ _ _ _ _ chunk t Hev Htext).
    cbn [accumulate partials].
    replace (i + S (length ts)) with (S i + length ts) by lia.
    destruct (decide (t = "")) as [->|Hne].
    + by rewrite (IH (S i) answer fuel Hts').
    + rewrite (IH (S i) (answer +:+ t) fuel Hts'). cbv zeta.
      by destruct (run _ _ _ _ _) as [[? ?] ?].
Qed.

(** A stream that hands out [ts] and ends, with a token count that
    succeeds: the whole run. *)
Lemma run_delivers chat_id query self s ts total fuel :
  send_message_stream (model self) (default [] (conversations self !! chat_id)) query
    = Return s →
  delivers s ts →
  count_tokens_async (model self) (final_history s) = Return total →
  length ts + 3 ≤ fuel →
  get_chat_response_stream chat_id query fuel self
  = ((in_progress <$> partials "" ts) ++ [(accumulate "" ts, pretty total)],
     Exhausted,
     with_conversations self (<[chat_id := final_history s]> (conversations self))).
Proof.
  intros Hsend [Hts Hend] Hcount Hfuel.
  replace fuel with (S (length ts + (2 + (fuel - length ts - 3)))) by lia.
  unfold get_chat_response_stream. cbn [run].
  rewrite step_created_eq. cbv zeta. rewrite Hsend.
  rewrite run_chunks by (intros k t Hk; by apply Hts).
  cbn [Nat.add run]. rewrite step_end by done. cbv zeta. cbn [model with_conversations].
  rewrite Hcount. cbn. by rewrite insert_ensured.
Qed.

(** ** The texts yielded along the way *)


Lemma partials_last answer ts :
  default answer (last (partials answer ts)) = accumulate answer ts.
Proof.
  revert answer. induction ts as [|t ts IH]; intros answer; [done|].
  cbn [partials accumulate]. destruct (decide (t = "")) as [->|Hne]; [apply IH|].
  rewrite last_cons. rewrite <- IH. by destruct (last _).
Qed.

Lemma partials_chain answer ts i a b :
  (answer :: partials answer ts) !! i = Some a →
  (answer :: partials answer ts) !! S i = Some b →
  strictly_extends a b.
Proof.
  revert answer i. induction ts as [|t ts IH]; intros answer i Ha Hb.
  - destruct i; cbn in Hb; done.
  - cbn [partials] in *. destruct (decide (t = "")) as [->|Hne]; [by eapply IH|].
    destruct i as [|i].
    + cbn in Ha, Hb. injection Ha as <-. injection Hb as <-. by exists t.
    + apply (IH (answer +:+ t) i); [exact Ha|exact Hb].
Qed.

Lemma accumulate_extends answer ts : extends answer (accumulate answer ts).
Proof.
  revert answer. induction ts as [|t ts IH]; intros answer; [apply extends_refl|].
  cbn [accumulate]. destruct (decide (t = "")); [apply IH|].
  eapply extends_trans; [|apply IH]. by exists t.
Qed.

Lemma partials_extends answer ts p :
  p ∈ partials answer ts → extends p (accumulate answer ts).
Proof.
  revert answer. induction ts as [|t ts IH]; intros answer Hp.
  - by apply elem_of_nil in Hp.
  - cbn [partials accumulate] in *. destruct (decide (t = "")); [by apply IH|].
    apply elem_of_cons in Hp as [->|Hp]; [apply accumulate_extends|by apply IH].
Qed.



(** A one-chunk answer: the final pair repeats the text of the pair before
    it, and the pair before it has status ["not_finished"]. *)
Example stream_one_chunk :
  (get_chat_response_stream 7 "hi" 4 (fresh_helper (canned_model "a" ["a"]))).1
  = ([("a", "not_finished"); ("a", "2")], Exhausted).
Proof. reflexivity. Qed.

(** On that run the final pair does not strictly extend the pair before
    it, and the pair before it does not have status ["in_progress"]. *)
Example stream_one_chunk_repeats :
  ¬ each_strictly_extends_previous [("a", "not_finished"); ("a", "2")].
Proof.
  intros Hgrow.
  specialize (Hgrow 0 ("a", "not_finished") ("a", "2") eq_refl eq_refl).
  by apply strictly_extends_ne in Hgrow.
Qed.

Example stream_one_chunk_status :
  ¬ in_progress_until_last [("a", "not_finished"); ("a", "2")].
Proof.
  intros Hstatus.
  specialize (Hstatus 0 ("a", "not_finished") eq_refl). cbn in Hstatus.
  assert (Hfalse : "not_finished" = "in_progress") by (apply Hstatus; lia).
  discriminate.
Qed.

(** C2, as stated, fails: for a one-chunk answer the final pair does not
    strictly extend the pair before it, and that pair's status is
    ["not_finished"], not ["in_progress"]. *)
Lemma get_chat_response_stream_not_strictly_growing :
  ¬ strictly_growing_in_progress
      (get_chat_response_stream 7 "hi" 4 (fresh_helper (canned_model "a" ["a"]))).1.1 2.
Proof.
  intros (Hgrow & _ & Hstatus & _).
  by apply stream_one_chunk_repeats.
Qed.

(** C2, amended. A streamed send that completes yields pairs with status
    ["not_finished"] whose texts each strictly extend the previous one (the
    first is not empty), followed by one final pair whose text is the last
    of these texts again (the empty text when there is none) and whose
    status is the token count for the new history in decimal; every
    yielded text is a prefix of the final text. *)
Theorem get_chat_response_stream_growing chat_id query self s ts total fuel :
  send_message_stream (model self) (default [] (conversations self !! chat_id)) query
    = Return s →
  delivers s ts →
  count_tokens_async (model self) (final_history s) = Return total →
  length ts + 3 ≤ fuel →
  ∃ texts final,
    (get_chat_response_stream chat_id query fuel self).1.1
      = ((λ a, (a, "not_finished")) <$> texts) ++ [(final, pretty total)] ∧
    (∀ i a b, ("" :: texts) !! i = Some a → ("" :: texts) !! S i = Some b →
              strictly_extends a b) ∧
    final = default "" (last texts) ∧
    (∀ a, a ∈ texts → extends a final).
Proof.
  intros Hsend Hdel Hcount Hfuel.
  rewrite (run_delivers _ _ _ s ts total) by done.
  exists (partials "" ts), (accumulate "" ts). split_and!.
  - done.
  - intros i a b. apply partials_chain.
  - by rewrite partials_last.
  - intros a. apply partials_extends.
Qed.

Lemma get_chat_response_stream_growing_witness :
  ∃ texts final,
    (get_chat_response_stream 7 "hi" 6
       (fresh_helper (canned_model "hello" ["hel"; ""; "lo"]))).1.1
      = ((λ a, (a, "not_finished")) <$> texts) ++ [(final, "2")] ∧
    (∀ i a b, ("" :: texts) !! i = Some a → ("" :: texts) !! S i = Some b →
              strictly_extends a b) ∧
    final = default "" (last texts) ∧
    (∀ a, a ∈ texts → extends a final).
Proof.
  apply (get_chat_response_stream_growing 7 "hi"
           (fresh_helper (canned_model "hello" ["hel"; ""; "lo"]))
           (stream_of ["hel"; ""; "lo"] [user_turn "hi"; model_turn "hello"])
           ["hel"; ""; "lo"] 2%Z 6).
  - reflexivity.
  - split; [|reflexivity].
    intros i t Hi. exists {| text := Return t |}. cbn. by rewrite Hi.
  - reflexivity.
  - cbn. lia.
Defined.

(** ** Failing calls *)

Lemma ensured_unchanged_but_entered chat_id (c : gmap Z (list Content)) :
  unchanged_but_entered chat_id c (ensured chat_id c).
Proof.
  split_and!.
  - apply ensured_present.
  - apply ensured_absent.
  - intros other. destruct (decide (other = chat_id)) as [->|Hne].
    + apply ensured_get.
    + by rewrite ensured_other.
Qed.

Lemma get_chat_response_fails chat_id query self e :
  send_fails self chat_id query e →
  get_chat_response chat_id query self
  = (Raise (reraised e), with_conversations self (ensured chat_id (conversations self))).
Proof.
  unfold send_fails, forwarded. rewrite get_chat_response_eq. cbv zeta.
  intros [Hsend|(response & chat_history & Hsend & Htext)]; rewrite Hsend; [done|].
  by rewrite Htext.
Qed.

Lemma get_chat_response_count_fails chat_id query self e :
  send_count_fails self chat_id query e →
  (get_chat_response chat_id query self).1 = Raise (reraised e).
Proof.
  unfold send_count_fails, forwarded. rewrite get_chat_response_eq. cbv zeta.
  intros (response & chat_history & answer & Hsend & Htext & Hcount).
  by rewrite Hsend, Htext, Hcount.
Qed.

(** When the exchange went through and only the token count raises, the
    new history has already been stored. *)
Lemma get_chat_response_count_fails_stored chat_id query self response chat_history answer e :
  send_message_async (model self) (forwarded self chat_id) query
    = Return (response, chat_history) →
  text response = Return answer →
  count_tokens_async (model self) chat_history = Raise e →
  get_chat_response chat_id query self
  = (Raise (reraised e),
     with_conversations self (<[chat_id := chat_history]> (conversations self))).
Proof.
  unfold forwarded. intros Hsend Htext Hcount.
  rewrite get_chat_response_eq. cbv zeta. by rewrite Hsend, Htext, Hcount.
Qed.

Lemma get_chat_response_stream_fails chat_id query self ts e fuel :
  stream_fails self chat_id query ts e →
  length ts + 2 ≤ fuel →
  get_chat_response_stream chat_id query fuel self
  = (in_progress <$> partials "" ts, Failed (reraised e),
     with_conversations self (ensured chat_id (conversations self))).
Proof.
  unfold stream_fails, forwarded, get_chat_response_stream.
  intros [[Hsend ->]|(s & Hsend & Hts & Hbreak)] Hfuel.
  - destruct fuel as [|fuel]; [cbn in Hfuel; lia|].
    cbn [run]. rewrite step_created_eq. cbv zeta. by rewrite Hsend.
  - replace fuel with (S (length ts + (1 + (fuel - length ts - 2)))) by lia.
    cbn [run]. rewrite step_created_eq. cbv zeta. rewrite Hsend.
    rewrite run_chunks by (intros k t Hk; by apply Hts).
    cbn [Nat.add run]. rewrite (step_break _ _ _ _ _ _ e) by done.
    cbn. by rewrite app_nil_r.
Qed.

Lemma get_chat_response_stream_count_fails chat_id query self ts e fuel :
  stream_count_fails self chat_id query ts e →
  length ts + 2 ≤ fuel →
  (get_chat_response_stream chat_id query fuel self).1
  = (in_progress <$> partials "" ts, Failed (reraised e)).
Proof.
  unfold stream_count_fails, forwarded, get_chat_response_stream.
  intros (s & Hsend & [Hts Hend] & Hcount) Hfuel.
  replace fuel with (S (length ts + (1 + (fuel - length ts - 2)))) by lia.
  cbn [run]. rewrite step_created_eq. cbv zeta. rewrite Hsend.
  rewrite run_chunks by (intros k t Hk; by apply Hts).
  cbn [Nat.add run]. rewrite step_end by done. cbv zeta. cbn [model with_conversations].
  rewrite Hcount. cbn. by rewrite app_nil_r.
Qed.

Lemma hands_out_snoc s ts chunk t :
  hands_out s ts → events s (length ts) = Chunk chunk → text chunk = Return t →
  hands_out s (ts ++ [t]).
Proof.
  intros Hts Hev Htext i t' Hi.
  apply lookup_app_Some in Hi as [Hi|[Hge Hi]]; [by apply Hts|].
  apply list_lookup_singleton_Some in Hi as [Hi <-].
  replace i with (length ts) by lia. by exists chunk.
Qed.

(** A run of the streaming loop that fails does so because the stream
    broke or because the token count raised. *)
Lemma run_streaming_failed chat_id query s fuel :
  ∀ ts0 answer self x,
    hands_out s ts0 →
    (run chat_id query fuel (GenStreaming s (length ts0) answer) self).1.2 = Failed x →
    ∃ ts e,
      (breaks s ts e ∨
       (delivers s ts ∧ count_tokens_async (model self) (final_history s) = Raise e)) ∧
      x = reraised e.
Proof.
  induction fuel as [|fuel IH]; intros ts0 answer self x Hts Hrun; [done|].
  cbn [run] in Hrun.
  destruct (events s (length ts0)) as [chunk|e|] eqn:Hev.
  - destruct (text chunk) as [e|t] eqn:Htext.
    + rewrite (step_break _ _ _ _ _ _ e) in Hrun by eauto.
      injection Hrun as <-. exists ts0, e. split; [left; split; eauto|done].
    + rewrite (step_chunk _ _ _ _ _ _ chunk t Hev Htext) in Hrun.
      pose proof (hands_out_snoc _ _ _ _ Hts Hev Htext) as Hts'.
      assert (Hlen : length (ts0 ++ [t]) = S (length ts0))
        by (rewrite length_app; cbn; lia).
      rewrite <- Hlen in Hrun.
      destruct (decide (t = "")); [by eapply IH|].
      destruct (run _ _ _ _ _) as [[ys o] self'] eqn:Hrest in Hrun.
      cbn in Hrun. subst o. eapply (IH _ _ _ _ Hts'). by rewrite Hrest.
  - rewrite (step_break _ _ _ _ _ _ e) in Hrun by eauto.
    injection Hrun as <-. exists ts0, e. split; [left; split; eauto|done].
  - rewrite step_end in Hrun by done. cbv zeta in Hrun.
    destruct (count_tokens_async _ _) as [e|total] eqn:Hcount.
    + injection Hrun as <-. exists ts0, e. split; [right; by repeat split|done].
    + by destruct fuel.
Qed.

(** A finite upstream stream, healthy or not, makes the generator finish:
    once the stream stops handing out readable chunks, the run ends with
    [StopAsyncIteration] or with an exception. *)
Lemma get_chat_response_stream_terminates chat_id query self s ts fuel :
  send_message_stream (model self) (forwarded self chat_id) query = Return s →
  hands_out s ts →
  (∀ t, ¬ chunk_text_at s (length ts) t) →
  length ts + 3 ≤ fuel →
  (get_chat_response_stream chat_id query fuel self).1.2 ≠ Pending.
Proof.
  intros Hsend Hts Hstop Hfuel.
  destruct (events s (length ts)) as [chunk|e|] eqn:Hev.
  - destruct (text chunk) as [e|t] eqn:Htext; [|destruct (Hstop t); by exists chunk].
    rewrite (get_chat_response_stream_fails _ _ _ ts e); [done| |lia].
    right. exists s. split; [done|]. split; eauto.
  - rewrite (get_chat_response_stream_fails _ _ _ ts e); [done| |lia].
    right. exists s. split; [done|]. split; eauto.
  - destruct (count_tokens_async (model self) (final_history s)) as [e|total] eqn:Hcount.
    + rewrite (get_chat_response_stream_count_fails _ _ _ ts e); [done| |lia].
      exists s. by repeat split.
    + by rewrite (run_delivers _ _ _ s ts total).
Qed.

(** C3, as stated, fails: a failed send to a chat id without an entry
    leaves an empty history under that id. *)
Lemma get_chat_response_not_error_atomic :
  ¬ error_atomic 7 "hi" (fresh_helper unreachable_model).
Proof.
  intros Hatomic. specialize (Hatomic (wrap connection_error) eq_refl).
  apply (f_equal (λ c, c !! 7%Z)) in Hatomic. vm_compute in Hatomic. discriminate.
Qed.

(** C3, amended. When the message call made by [get_chat_response] or by
    [get_chat_response_stream] fails (sending or opening the stream raises,
    the response text cannot be read, or the stream breaks), the call
    raises (the wrapped exception, or the failure itself when it is not an
    [Exception]) and no stored history changes: the dictionary is the one
    before the call, except that an empty history has been created for the
    chat id if it had no entry. *)
Theorem failed_call_keeps_histories chat_id query self e :
  (send_fails self chat_id query e →
   (get_chat_response chat_id query self).1 = Raise (reraised e) ∧
   unchanged_but_entered chat_id (conversations self)
     (conversations (get_chat_response chat_id query self).2)) ∧
  (∀ ts fuel,
     stream_fails self chat_id query ts e →
     length ts + 2 ≤ fuel →
     (get_chat_response_stream chat_id query fuel self).1.2 = Failed (reraised e) ∧
     unchanged_but_entered chat_id (conversations self)
       (conversations (get_chat_response_stream chat_id query fuel self).2)).
Proof.
  split.
  - intros Hfail. rewrite (get_chat_response_fails _ _ _ e) by done.
    split; [done|]. apply ensured_unchanged_but_entered.
  - intros ts fuel Hfail Hfuel. rewrite (get_chat_response_stream_fails _ _ _ ts e) by done.
    split; [done|]. apply ensured_unchanged_but_entered.
Qed.

Lemma failed_call_keeps_histories_witness :
  ((get_chat_response 7 "more" (talked_helper unreachable_model)).1
     = Raise (wrap connection_error) ∧
   unchanged_but_entered 7 (conversations (talked_helper unreachable_model))
     (conversations (get_chat_response 7 "more" (talked_helper unreachable_model)).2)) ∧
  ((get_chat_response_stream 8 "hi" 2 (talked_helper unreachable_model)).1.2
     = Failed (wrap connection_error) ∧
   unchanged_but_entered 8 (conversations (talked_helper unreachable_model))
     (conversations (get_chat_response_stream 8 "hi" 2 (talked_helper unreachable_model)).2)).
Proof.
  split.
  - apply (failed_call_keeps_histories 7 "more" (talked_helper unreachable_model)
             connection_error).
    left. reflexivity.
  - apply (failed_call_keeps_histories 8 "hi" (talked_helper unreachable_model)
             connection_error) with (ts := []).
    + left. split; reflexivity.
    + cbn. lia.
Defined.

(** C4, as stated, fails: when the task is cancelled while the send
    awaits the service, the [CancelledError] is not an [Exception], passes
    the handler, and reaches the caller unwrapped. *)
Lemma get_chat_response_not_always_wrapped :
  ¬ errors_always_wrapped 7 "hi" (fresh_helper cancelled_model).
Proof.
  intros Hwrapped. destruct (Hwrapped cancelled_error eq_refl) as [e He].
  apply (f_equal exc_kind) in He. discriminate.
Qed.

(** C4, amended. [get_chat_response] and [get_chat_response_stream] raise
    exactly when an upstream call fails (the message call, or the token
    count that follows it). A failure that is an [Exception] is caught and
    raised again as one generic [Exception] whose message ends with the
    message of the original error and whose cause is that error; a failure
    whose class derives from [BaseException] only propagates as it is. A
    failure is never retried or turned into a result. *)
Theorem errors_are_upstream_failures chat_id query self x :
  ((get_chat_response chat_id query self).1 = Raise x ↔
   ∃ e, (send_fails self chat_id query e ∨ send_count_fails self chat_id query e) ∧
        x = reraised e) ∧
  ((∃ fuel, (get_chat_response_stream chat_id query fuel self).1.2 = Failed x) ↔
   ∃ ts e, (stream_fails self chat_id query ts e ∨
            stream_count_fails self chat_id query ts e) ∧
           x = reraised e) ∧
  (∀ e, is_exception e = true →
        reraised e = wrap e ∧
        exc_kind (reraised e) = "Exception" ∧
        exc_str (reraised e) = error_banner +:+ exc_str e ∧
        cause_of (reraised e) = Some e) ∧
  (∀ e, is_exception e = false → reraised e = e).
Proof.
  split_and!.
  - split.
    + rewrite get_chat_response_eq. cbv zeta.
      unfold send_fails, send_count_fails, forwarded.
      destruct (send_message_async _ _ _) as [e|[response chat_history]] eqn:Hsend.
      { intros [= <-]. exists e. eauto. }
      destruct (text response) as [e|answer] eqn:Htext.
      { intros [= <-]. exists e. split; [left; right; eauto|done]. }
      destruct (count_tokens_async _ _) as [e|total] eqn:Hcount; [|done].
      intros [= <-]. exists e. split; [right; eauto 10|done].
    + intros (e & [Hfail|Hfail] & ->).
      * by rewrite (get_chat_response_fails _ _ _ e).
      * by apply get_chat_response_count_fails.
  - split.
    + intros [fuel Hrun]. unfold get_chat_response_stream in Hrun.
      destruct fuel as [|fuel]; [done|]. cbn [run] in Hrun.
      rewrite step_created_eq in Hrun. cbv zeta in Hrun.
      unfold stream_fails, stream_count_fails, forwarded.
      destruct (send_message_stream _ _ _) as [e|s] eqn:Hsend.
      { injection Hrun as <-. exists [], e. split; [left; left; done|done]. }
      apply (run_streaming_failed _ _ _ _ []) in Hrun as (ts & e & Hwhy & ->);
        [|by intros i t Hi].
      exists ts, e. split; [|done].
      destruct Hwhy as [Hbreak|[Hdel Hcount]]; [left; right; eauto|right; eauto].
    + intros (ts & e & [Hfail|Hfail] & ->); exists (length ts + 2).
      * by rewrite (get_chat_response_stream_fails _ _ _ ts e).
      * by rewrite (get_chat_response_stream_count_fails _ _ _ ts e).
  - intros e He. unfold reraised. by rewrite He.
  - intros e He. unfold reraised. by rewrite He.
Qed.

Lemma errors_are_upstream_failures_witness :
  ((get_chat_response 7 "hi" (fresh_helper unreachable_model)).1
     = Raise (wrap connection_error) ∧
   (∃ fuel, (get_chat_response_stream 7 "hi" fuel (fresh_helper unreachable_model)).1.2
            = Failed (wrap connection_error))) ∧
  (reraised connection_error = wrap connection_error ∧
   exc_kind (reraised connection_error) = "Exception" ∧
   exc_str (reraised connection_error) = error_banner +:+ "service unavailable" ∧
   cause_of (reraised connection_error) = Some connection_error) ∧
  reraised cancelled_error = cancelled_error.
Proof.
  destruct (errors_are_upstream_failures 7 "hi" (fresh_helper unreachable_model)
              (wrap connection_error)) as (Hsend & Hstream & Hwrap & Hpass).
  split; [split|split].
  - apply Hsend. exists connection_error. split; [left; left; reflexivity|reflexivity].
  - apply Hstream. exists [], connection_error.
    split; [left; left; split; reflexivity|reflexivity].
  - apply (Hwrap connection_error). reflexivity.
  - apply (Hpass cancelled_error). reflexivity.
Defined.

(** * Further properties *)

(** ** What a call may touch *)

Lemma with_conversations_same self : with_conversations self (conversations self) = self.
Proof. by destruct self. Qed.

Lemma ensured_idem chat_id (c : gmap Z (list Content)) :
  ensured chat_id (ensured chat_id c) = ensured chat_id c.
Proof. apply ensured_present. rewrite ensured_is_Some. eauto. Qed.

Lemma touches_only_other chat_id (c c' : gmap Z (list Content)) other :
  touches_only chat_id c c' → other ≠ chat_id → c' !! other = c !! other.
Proof.
  intros [->|[->|[h ->]]] Hne; [done|by apply ensured_other|by apply lookup_insert_ne].
Qed.

Lemma touches_only_keeps_entry chat_id (c c' : gmap Z (list Content)) :
  touches_only chat_id c c' → is_Some (c !! chat_id) → is_Some (c' !! chat_id).
Proof.
  intros [->|[->|[h ->]]] Hin; [done| |].
  - rewrite ensured_is_Some. eauto.
  - rewrite lookup_insert_eq. eauto.
Qed.

Lemma same_elsewhere_with chat_id self c' :
  touches_only chat_id (conversations self) c' →
  same_elsewhere chat_id self (with_conversations self c').
Proof.
  intros Htouch. split_and!; [done|done|].
  intros other Hne. by apply (touches_only_other chat_id).
Qed.

Lemma same_elsewhere_trans chat_id a b c :
  same_elsewhere chat_id a b → same_elsewhere chat_id b c → same_elsewhere chat_id a c.
Proof.
  intros (Hm1 & Hc1 & Ho1) (Hm2 & Hc2 & Ho2). split_and!; [congruence|congruence|].
  intros other Hne. rewrite Ho2 by done. by apply Ho1.
Qed.

Lemma get_chat_response_effect chat_id query self :
  ∃ c', (get_chat_response chat_id query self).2 = with_conversations self c' ∧
        (c' = ensured chat_id (conversations self) ∨
         ∃ h, c' = <[chat_id := h]> (conversations self)).
Proof.
  rewrite get_chat_response_eq. cbv zeta.
  destruct (send_message_async _ _ _) as [e|[response chat_history]]; [eauto|].
  destruct (text response) as [e|answer]; [eauto|].
  destruct (count_tokens_async _ _); eauto.
Qed.

Lemma step_effect chat_id query g self :
  ∃ c', (step chat_id query g self).2 = with_conversations self c' ∧
        touches_only chat_id (conversations self) c'.
Proof.
  unfold touches_only. destruct g as [|s i answer| |].
  - rewrite step_created_eq. cbv zeta.
    destruct (send_message_stream _ _ _); eauto.
  - exists (conversations (step chat_id query (GenStreaming s i answer) self).2).
    destruct (events s i) as [chunk|e|] eqn:Hev.
    + destruct (text chunk) as [e|t] eqn:Htext.
      * rewrite (step_break _ _ _ _ _ _ e) by eauto.
        cbn. by rewrite with_conversations_same; eauto.
      * rewrite (step_chunk _ _ _ _ _ _ chunk t Hev Htext).
        destruct (decide (t = "")); cbn; rewrite with_conversations_same; eauto.
    + rewrite (step_break _ _ _ _ _ _ e) by eauto.
      cbn. by rewrite with_conversations_same; eauto.
    + rewrite step_end by done. cbv zeta.
      destruct (count_tokens_async _ _); cbn; eauto.
  - exists (conversations self). cbn. rewrite with_conversations_same. eauto.
  - exists (conversations self). cbn. rewrite with_conversations_same. eauto.
Qed.

(** A property of the adapter that every step keeps is kept by a whole
    run of the generator. *)
Lemma run_invariant chat_id query (P : GeminiHelper → Prop) :
  (∀ g self, P self → P (step chat_id query g self).2) →
  ∀ fuel g self, P self → P (run chat_id query fuel g self).2.
Proof.
  intros Hstep. induction fuel as [|fuel IH]; intros g self HP; [done|].
  cbn [run]. specialize (Hstep g self HP).
  destruct (step chat_id query g self) as [[e|[[|answer status|] g']] self']; cbn in Hstep.
  - done.
  - by apply IH.
  - specialize (IH g' self' Hstep).
    by destruct (run chat_id query fuel g' self') as [[ys o] self''].
  - done.
Qed.

(** X1. [get_chat_response] touches nothing but the entry of its own chat
    id: whatever the SDK does, the model, the configuration and the
    histories of all other chats are as before. *)
Theorem get_chat_response_frame chat_id query self :
  same_elsewhere chat_id self (get_chat_response chat_id query self).2.
Proof.
  destruct (get_chat_response_effect chat_id query self) as (c' & -> & Hc').
  apply same_elsewhere_with. unfold touches_only. tauto.
Qed.

(** X2. However far the streaming generator is drained, and however it
    ends, the model, the configuration and the histories of all other
    chats are as before. *)
Theorem get_chat_response_stream_frame chat_id query fuel self :
  same_elsewhere chat_id self (get_chat_response_stream chat_id query fuel self).2.
Proof.
  unfold get_chat_response_stream.
  apply (run_invariant chat_id query (same_elsewhere chat_id self)).
  - intros g self' Hsame.
    destruct (step_effect chat_id query g self') as (c' & -> & Hc').
    eapply same_elsewhere_trans; [exact Hsame|]. by apply same_elsewhere_with.
  - split_and!; done.
Qed.

(** X3. Once a chat id has been accessed it has an entry: after
    [get_chat_response], after [get_conversation_stats], and after the
    first resumption of the streaming generator, whether the call
    succeeded or raised. *)
Theorem accessed_conversation_exists chat_id query self :
  is_Some (conversations (get_chat_response chat_id query self).2 !! chat_id) ∧
  is_Some (conversations (get_conversation_stats chat_id self).2 !! chat_id) ∧
  (∀ fuel, 1 ≤ fuel →
     is_Some (conversations (get_chat_response_stream chat_id query fuel self).2 !! chat_id)).
Proof.
  split_and!.
  - destruct (get_chat_response_effect chat_id query self) as (c' & -> & [->|[h ->]]); cbn.
    + rewrite ensured_is_Some. eauto.
    + rewrite lookup_insert_eq. eauto.
  - rewrite get_conversation_stats_eq. cbv zeta.
    destruct (count_tokens_async _ _); cbn; rewrite ensured_is_Some; eauto.
  - intros fuel Hfuel. destruct fuel as [|fuel]; [lia|].
    unfold get_chat_response_stream. cbn [run]. rewrite step_created_eq. cbv zeta.
    destruct (send_message_stream _ _ _) as [e|s].
    + cbn. rewrite ensured_is_Some. eauto.
    + apply (run_invariant chat_id query
               (λ self', is_Some (conversations self' !! chat_id))).
      * intros g self' Hin.
        destruct (step_effect chat_id query g self') as (c' & -> & Hc').
        by apply (touches_only_keeps_entry chat_id (conversations self')).
      * cbn. rewrite ensured_is_Some. eauto.
Qed.

Lemma accessed_conversation_exists_witness :
  is_Some (conversations
             (get_chat_response_stream 9 "hi" 1 (talked_helper unreachable_model)).2 !! 9%Z).
Proof.
  apply (accessed_conversation_exists 9 "hi" (talked_helper unreachable_model)).
  lia.
Defined.

(** ** A token count that fails after the exchange *)

(** X4. In [get_chat_response] the history is stored before the tokens
    are counted: when the exchange went through and only the token count
    raises, the call raises (the wrapped exception, or the failure itself
    when it is not an [Exception]) and the new history is already in the
    dictionary. *)
Theorem token_count_failure_keeps_exchange chat_id query self response chat_history answer e :
  send_message_async (model self) (forwarded self chat_id) query
    = Return (response, chat_history) →
  text response = Return answer →
  count_tokens_async (model self) chat_history = Raise e →
  get_chat_response chat_id query self
  = (Raise (reraised e),
     with_conversations self (<[chat_id := chat_history]> (conversations self))).
Proof.
  unfold forwarded. intros Hsend Htext Hcount.
  rewrite get_chat_response_eq. cbv zeta. by rewrite Hsend, Htext, Hcount.
Qed.

Lemma token_count_failure_keeps_exchange_witness :
  get_chat_response 7 "hi" (fresh_helper (uncounted_model "hello" ["hello"]))
  = (Raise (wrap connection_error),
     with_conversations (fresh_helper (uncounted_model "hello" ["hello"]))
       (<[7%Z := [user_turn "hi"; model_turn "hello"]]> ∅)).
Proof.
  apply (token_count_failure_keeps_exchange 7 "hi"
           (fresh_helper (uncounted_model "hello" ["hello"]))
           {| text := Return "hello" |}
           [user_turn "hi"; model_turn "hello"] "hello" connection_error);
    reflexivity.
Defined.

(** X5. In a streamed send whose stream is delivered to its end, a token
    count that raises comes after the history has been stored: the
    consumer gets every partial text, then the exception (wrapped, or as
    it is when it is not an [Exception]) instead of the final pair, and
    the exchange is in the dictionary. *)
Theorem get_chat_response_stream_count_fails_stored chat_id query self s ts e fuel :
  send_message_stream (model self) (forwarded self chat_id) query = Return s →
  delivers s ts →
  count_tokens_async (model self) (final_history s) = Raise e →
  length ts + 2 ≤ fuel →
  get_chat_response_stream chat_id query fuel self
  = ((λ a, (a, "not_finished")) <$> partials "" ts,
     Failed (reraised e),
     with_conversations self (<[chat_id := final_history s]> (conversations self))).
Proof.
  unfold forwarded, get_chat_response_stream.
  intros Hsend [Hts Hend] Hcount Hfuel.
  replace fuel with (S (length ts + (1 + (fuel - length ts - 2)))) by lia.
  cbn [run]. rewrite step_created_eq. cbv zeta. rewrite Hsend.
  rewrite run_chunks by (intros k t Hk; by apply Hts).
  cbn [Nat.add run]. rewrite step_end by done. cbv zeta. cbn [model with_conversations].
  rewrite Hcount. cbn. by rewrite app_nil_r, insert_ensured.
Qed.

Lemma get_chat_response_stream_count_fails_stored_witness :
  get_chat_response_stream 7 "hi" 4 (fresh_helper (uncounted_model "hello" ["hel"; "lo"]))
  = ([("hel", "not_finished"); ("hello", "not_finished")],
     Failed (wrap connection_error),
     with_conversations (fresh_helper (uncounted_model "hello" ["hel"; "lo"]))
       (<[7%Z := [user_turn "hi"; model_turn "hello"]]> ∅)).
Proof.
  apply (get_chat_response_stream_count_fails_stored 7 "hi"
           (fresh_helper (uncounted_model "hello" ["hel"; "lo"]))
           (stream_of ["hel"; "lo"] [user_turn "hi"; model_turn "hello"])
           ["hel"; "lo"] connection_error 4).
  - reflexivity.
  - split; [|reflexivity].
    intros i t Hi. exists {| text := Return t |}. cbn. by rewrite Hi.
  - reflexivity.
  - cbn. lia.
Defined.

(** ** [get_conversation_stats], further *)

(** X6. [get_conversation_stats] has no handler: it raises exactly when
    the token count of the stored history raises, and then with that very
    exception, unwrapped; the subscript [self.conversations[chat_id]] never
    raises [KeyError]. *)
Theorem get_conversation_stats_raises chat_id self x :
  (get_conversation_stats chat_id self).1 = Raise x ↔
  count_tokens_async (model self) (forwarded self chat_id) = Raise x.
Proof.
  rewrite get_conversation_stats_eq. cbv zeta. unfold forwarded.
  destruct (count_tokens_async _ _) as [e|total]; cbn; split; congruence.
Qed.

(** X14. [get_conversation_stats] never changes a stored history: the
    dictionary afterwards is the one before, except for the empty entry
    created for an id that had none, whether the token count returns or
    raises; model and configuration are as before. *)
Theorem get_conversation_stats_keeps_histories chat_id self :
  unchanged_but_entered chat_id (conversations self)
    (conversations (get_conversation_stats chat_id self).2) ∧
  same_elsewhere chat_id self (get_conversation_stats chat_id self).2.
Proof.
  assert (Hst : (get_conversation_stats chat_id self).2
                = with_conversations self (ensured chat_id (conversations self))).
  { rewrite get_conversation_stats_eq. cbv zeta. by destruct (count_tokens_async _ _). }
  rewrite Hst. split.
  - apply ensured_unchanged_but_entered.
  - apply same_elsewhere_with. unfold touches_only. tauto.
Qed.



(** ** Calls in sequence *)

(** X7. [reset_chat_history] after any access forgets the chat entirely:
    after a send or a statistics call, successful or not, a reset leaves
    the dictionary as it was before the access minus the chat id, and
    exactly as it was when the id had no entry (the empty entry created by
    the access is removed again). *)
Theorem reset_after_access chat_id query self :
  let after_send :=
    conversations (reset_chat_history chat_id (get_chat_response chat_id query self).2).2 in
  let after_stats :=
    conversations (reset_chat_history chat_id (get_conversation_stats chat_id self).2).2 in
  after_send = delete chat_id (conversations self) ∧
  after_stats = delete chat_id (conversations self) ∧
  (conversations self !! chat_id = None →
   after_send = conversations self ∧ after_stats = conversations self).
Proof.
  cbv zeta. rewrite !reset_chat_history_eq. cbn [snd conversations with_conversations].
  assert (Hens : delete chat_id (ensured chat_id (conversations self))
                 = delete chat_id (conversations self)).
  { unfold ensured. destruct (conversations self !! chat_id); [done|].
    by rewrite delete_insert_eq. }
  assert (Hsend : delete chat_id (conversations (get_chat_response chat_id query self).2)
                  = delete chat_id (conversations self)).
  { destruct (get_chat_response_effect chat_id query self) as (c' & -> & [->|[h ->]]); cbn.
    - done.
    - by rewrite delete_insert_eq. }
  assert (Hstats : delete chat_id (conversations (get_conversation_stats chat_id self).2)
                   = delete chat_id (conversations self)).
  { rewrite get_conversation_stats_eq. cbv zeta.
    by destruct (count_tokens_async _ _). }
  rewrite Hsend, Hstats. split_and!; [done|done|].
  intros Habs. by rewrite delete_id.
Qed.

Lemma reset_after_access_witness :
  conversations
    (reset_chat_history 8 (get_chat_response 8 "hi" (talked_helper unreachable_model)).2).2
    = conversations (talked_helper unreachable_model) ∧
  conversations
    (reset_chat_history 8 (get_conversation_stats 8 (talked_helper unreachable_model)).2).2
    = conversations (talked_helper unreachable_model).
Proof.
  apply (reset_after_access 8 "hi" (talked_helper unreachable_model)).
  reflexivity.
Defined.

(** X8. A failed message call leaves no trace for the chat it was made
    on: a later send or statistics call on the same chat id behaves
    exactly (result and adapter afterwards) as if the failed call had
    never been made. *)
Theorem retry_after_failure chat_id query self e :
  send_fails self chat_id query e →
  (∀ query',
     get_chat_response chat_id query' (get_chat_response chat_id query self).2
     = get_chat_response chat_id query' self) ∧
  get_conversation_stats chat_id (get_chat_response chat_id query self).2
  = get_conversation_stats chat_id self.
Proof.
  intros Hfail. rewrite (get_chat_response_fails _ _ _ e) by done. cbn [snd].
  split.
  - intros query'. rewrite !get_chat_response_eq. cbv zeta.
    cbn [model conversations with_conversations].
    rewrite ensured_idem, ensured_get.
    destruct (send_message_async _ _ _) as [e'|[response chat_history]]; [done|].
    destruct (text response) as [e'|answer]; [done|].
    by rewrite insert_ensured.
  - rewrite !get_conversation_stats_eq. cbv zeta.
    cbn [model conversations with_conversations].
    by rewrite ensured_idem, ensured_get.
Qed.

Lemma retry_after_failure_witness :
  (∀ query',
     get_chat_response 8 query'
       (get_chat_response 8 "hi" (talked_helper unreachable_model)).2
     = get_chat_response 8 query' (talked_helper unreachable_model)) ∧
  get_conversation_stats 8 (get_chat_response 8 "hi" (talked_helper unreachable_model)).2
  = get_conversation_stats 8 (talked_helper unreachable_model).
Proof.
  apply (retry_after_failure 8 "hi" (talked_helper unreachable_model) connection_error).
  left. reflexivity.
Defined.

Lemma forwarded_stored chat_id self h :
  forwarded (with_conversations self (<[chat_id := h]> (conversations self))) chat_id = h.
Proof. unfold forwarded. cbn. by rewrite lookup_insert_eq. Qed.

(** X12. With an SDK whose sessions return the history they were given
    followed by the two turns of the exchange, sending a list of queries
    to one chat only ever appends: the stored history afterwards is the
    one before followed by two turns per query. *)
Theorem send_each_appends chat_id queries :
  ∀ self,
    appends_exchange (model self) →
    counts_tokens (model self) →
    ∃ added,
      forwarded (send_each chat_id queries self) chat_id
        = forwarded self chat_id ++ added ∧
      length added = 2 * length queries.
Proof.
  induction queries as [|query queries IH]; intros self Happ Hcount.
  - exists []. by rewrite app_nil_r.
  - cbn [send_each].
    destruct (Happ (forwarded self chat_id) query)
      as (response & answer & user_msg & reply & Hsend & Htext).
    destruct (Hcount (forwarded self chat_id ++ [user_msg; reply])) as [total Htotal].
    assert (Hst : (get_chat_response chat_id query self).2
                  = with_conversations self
                      (<[chat_id := forwarded self chat_id ++ [user_msg; reply]]>
                         (conversations self))).
    { rewrite get_chat_response_eq. cbv zeta. unfold forwarded in *.
      by rewrite Hsend, Htext, Htotal. }
    rewrite Hst.
    destruct (IH (with_conversations self
                    (<[chat_id := forwarded self chat_id ++ [user_msg; reply]]>
                       (conversations self))) Happ Hcount) as (added & Hadded & Hlen).
    exists ([user_msg; reply] ++ added). split.
    + rewrite Hadded, forwarded_stored. by rewrite <- app_assoc.
    + rewrite length_app. cbn [length]. lia.
Qed.

Lemma send_each_appends_witness :
  ∃ added,
    forwarded (send_each 7 ["a"; "b"; "c"] (talked_helper (canned_model "ok" []))) 7
      = forwarded (talked_helper (canned_model "ok" [])) 7 ++ added ∧
    length added = 2 * 3.
Proof.
  apply (send_each_appends 7 ["a"; "b"; "c"] (talked_helper (canned_model "ok" []))).
  - intros history query.
    exists {| text := Return "ok" |}, "ok", (user_turn query), (model_turn "ok").
    split; reflexivity.
  - intros contents. exists (Z.of_nat (length contents)). reflexivity.
Defined.

(** ** Streaming, further *)

(** X9. A streamed send drained to its end stores the history of the
    session under the chat id, exactly as the plain send does, and
    changes nothing else. *)
Theorem get_chat_response_stream_stores chat_id query self s ts total fuel :
  send_message_stream (model self) (forwarded self chat_id) query = Return s →
  delivers s ts →
  count_tokens_async (model self) (final_history s) = Return total →
  length ts + 3 ≤ fuel →
  (get_chat_response_stream chat_id query fuel self).2
  = with_conversations self (<[chat_id := final_history s]> (conversations self)).
Proof.
  unfold forwarded. intros Hsend Hdel Hcount Hfuel.
  by rewrite (run_delivers _ _ _ s ts total).
Qed.

Lemma get_chat_response_stream_stores_witness :
  (get_chat_response_stream 7 "hi" 5 (fresh_helper (canned_model "hello" ["hel"; "lo"]))).2
  = with_conversations (fresh_helper (canned_model "hello" ["hel"; "lo"]))
      (<[7%Z := [user_turn "hi"; model_turn "hello"]]> ∅).
Proof.
  apply (get_chat_response_stream_stores 7 "hi"
           (fresh_helper (canned_model "hello" ["hel"; "lo"]))
           (stream_of ["hel"; "lo"] [user_turn "hi"; model_turn "hello"])
           ["hel"; "lo"] 2%Z 5).
  - reflexivity.
  - split; [|reflexivity].
    intros i t Hi. exists {| text := Return t |}. cbn. by rewrite Hi.
  - reflexivity.
  - cbn. lia.
Defined.

Lemma concat_texts_cons t ts : concat_texts (t :: ts) = t +:+ concat_texts ts.
Proof. done. Qed.

Lemma accumulate_concat answer ts :
  accumulate answer ts = answer +:+ concat_texts ts.
Proof.
  revert answer. induction ts as [|t ts IH]; intros answer.
  - cbn [accumulate]. by rewrite string_app_nil_r.
  - cbn [accumulate]. rewrite concat_texts_cons.
    destruct (decide (t = "")) as [->|Hne]; [apply IH|].
    by rewrite IH, string_app_assoc.
Qed.

Lemma partials_concat answer ts p :
  p ∈ partials answer ts →
  ∃ k, k ≤ length ts ∧ p = answer +:+ concat_texts (take k ts).
Proof.
  revert answer. induction ts as [|t ts IH]; intros answer Hp.
  - by apply elem_of_nil in Hp.
  - cbn [partials] in Hp. destruct (decide (t = "")) as [->|Hne].
    + destruct (IH answer Hp) as (k & Hk & ->).
      exists (S k). split; [cbn; lia|done].
    + apply elem_of_cons in Hp as [->|Hp].
      * exists 1. split; [cbn; lia|].
        cbn [take]. rewrite concat_texts_cons. by rewrite string_app_nil_r.
      * destruct (IH (answer +:+ t) Hp) as (k & Hk & ->).
        exists (S k). split; [cbn; lia|].
        cbn [take]. by rewrite concat_texts_cons, string_app_assoc.
Qed.

(** X10. In a streamed send drained to its end, the text of the final
    pair is the concatenation of all chunk texts in order, and every
    partial text yielded before is the concatenation of an initial segment
    of the chunks. *)
Theorem get_chat_response_stream_concatenates chat_id query self s ts total fuel :
  send_message_stream (model self) (forwarded self chat_id) query = Return s →
  delivers s ts →
  count_tokens_async (model self) (final_history s) = Return total →
  length ts + 3 ≤ fuel →
  ∃ ys,
    (get_chat_response_stream chat_id query fuel self).1.1
      = ys ++ [(concat_texts ts, pretty total)] ∧
    ∀ y, y ∈ ys → ∃ k, k ≤ length ts ∧ y.1 = concat_texts (take k ts).
Proof.
  unfold forwarded. intros Hsend Hdel Hcount Hfuel.
  rewrite (run_delivers _ _ _ s ts total) by done. cbn [fst].
  exists (in_progress <$> partials "" ts). split.
  - by rewrite accumulate_concat.
  - intros y Hy. apply list_elem_of_fmap in Hy as (p & -> & Hp).
    by apply partials_concat in Hp.
Qed.

Lemma get_chat_response_stream_concatenates_witness :
  ∃ ys,
    (get_chat_response_stream 7 "hi" 6
       (fresh_helper (canned_model "hello" ["hel"; ""; "lo"]))).1.1
      = ys ++ [("hello", "2")] ∧
    ∀ y, y ∈ ys → ∃ k, k ≤ 3 ∧ y.1 = concat_texts (take k ["hel"; ""; "lo"]).
Proof.
  apply (get_chat_response_stream_concatenates 7 "hi"
           (fresh_helper (canned_model "hello" ["hel"; ""; "lo"]))
           (stream_of ["hel"; ""; "lo"] [user_turn "hi"; model_turn "hello"])
           ["hel"; ""; "lo"] 2%Z 6).
  - reflexivity.
  - split; [|reflexivity].
    intros i t Hi. exists {| text := Return t |}. cbn. by rewrite Hi.
  - reflexivity.
  - cbn. lia.
Defined.

Lemma partials_all_empty answer ts :
  Forall (λ t, t = "") ts → partials answer ts = [] ∧ accumulate answer ts = answer.
Proof.
  induction 1 as [|t ts -> _ IH]; [done|].
  cbn [partials accumulate]. by rewrite decide_True.
Qed.

(** X15. Chunks with empty text are skipped: when every chunk of a
    delivered stream has empty text (in particular when there is no chunk
    at all), the generator yields the final pair only, with the empty
    text and the token count. *)
Theorem get_chat_response_stream_empty_answer chat_id query self s ts total fuel :
  send_message_stream (model self) (forwarded self chat_id) query = Return s →
  delivers s ts →
  Forall (λ t, t = "") ts →
  count_tokens_async (model self) (final_history s) = Return total →
  length ts + 3 ≤ fuel →
  (get_chat_response_stream chat_id query fuel self).1 = ([("", pretty total)], Exhausted).
Proof.
  unfold forwarded. intros Hsend Hdel Hempty Hcount Hfuel.
  rewrite (run_delivers _ _ _ s ts total) by done. cbn [fst].
  by destruct (partials_all_empty "" ts Hempty) as [-> ->].
Qed.

Lemma get_chat_response_stream_empty_answer_witness :
  (get_chat_response_stream 7 "hi" 5 (fresh_helper (canned_model "" [""; ""]))).1
  = ([("", "2")], Exhausted).
Proof.
  apply (get_chat_response_stream_empty_answer 7 "hi"
           (fresh_helper (canned_model "" [""; ""]))
           (stream_of [""; ""] [user_turn "hi"; model_turn ""])
           [""; ""] 2%Z 5).
  - reflexivity.
  - split; [|reflexivity].
    intros i t Hi. exists {| text := Return t |}. cbn. by rewrite Hi.
  - repeat constructor.
  - reflexivity.
  - cbn. lia.
Defined.

Lemma hands_out_take s ts k : hands_out s ts → hands_out s (take k ts).
Proof. intros Hts i t Hi. apply lookup_take_Some in Hi as [Hi _]. by apply Hts. Qed.

(** X11. The history is stored only when the stream has been read to its
    end: a consumer that stops after some resumptions, while chunks are
    still coming, has received the partial texts so far, and the
    dictionary holds no trace of the exchange (only the empty entry
    created for an id that had none). *)
Theorem abandoned_stream_stores_nothing chat_id query self s ts fuel :
  send_message_stream (model self) (forwarded self chat_id) query = Return s →
  hands_out s ts →
  1 ≤ fuel → fuel ≤ length ts + 1 →
  (get_chat_response_stream chat_id query fuel self).1
    = ((λ a, (a, "not_finished")) <$> partials "" (take (fuel - 1) ts), Pending) ∧
  unchanged_but_entered chat_id (conversations self)
    (conversations (get_chat_response_stream chat_id query fuel self).2).
Proof.
  unfold forwarded, get_chat_response_stream. intros Hsend Hts Hpos Hfuel.
  destruct fuel as [|k]; [lia|].
  replace (S k - 1) with k by lia.
  cbn [run]. rewrite step_created_eq. cbv zeta. rewrite Hsend.
  assert (Hk : length (take k ts) = k) by (rewrite length_take; lia).
  pose proof (hands_out_take s ts k Hts) as Hts'.
  remember (take k ts) as ts' eqn:Ets'.
  rewrite <- Hk at 1 2. rewrite <- (Nat.add_0_r (length ts')).
  rewrite !run_chunks by (intros i t Hi; by apply Hts').
  cbn. rewrite app_nil_r. split; [done|]. apply ensured_unchanged_but_entered.
Qed.

Lemma abandoned_stream_stores_nothing_witness :
  (get_chat_response_stream 7 "hi" 2
     (talked_helper (canned_model "hello" ["hel"; "lo"]))).1
    = ([("hel", "not_finished")], Pending) ∧
  unchanged_but_entered 7 (conversations (talked_helper (canned_model "hello" ["hel"; "lo"])))
    (conversations (get_chat_response_stream 7 "hi" 2
                      (talked_helper (canned_model "hello" ["hel"; "lo"]))).2).
Proof.
  apply (abandoned_stream_stores_nothing 7 "hi"
           (talked_helper (canned_model "hello" ["hel"; "lo"]))
           (stream_of ["hel"; "lo"]
              [user_turn "hi"; model_turn "hello"; user_turn "hi"; model_turn "hello"])
           ["hel"; "lo"] 2).
  - reflexivity.
  - intros i t Hi. exists {| text := Return t |}. cbn. by rewrite Hi.
  - lia.
  - cbn. lia.
Defined.

(** X16. When the stream breaks after some chunks (the iteration raises,
    or a chunk's text cannot be read), the consumer has received the
    partial texts of the chunks before the break, then gets the exception
    (wrapped, or as it is when it is not an [Exception]); no final pair is
    yielded. *)
Theorem broken_stream_delivers_partials chat_id query self s ts e fuel :
  send_message_stream (model self) (forwarded self chat_id) query = Return s →
  breaks s ts e →
  length ts + 2 ≤ fuel →
  (get_chat_response_stream chat_id query fuel self).1
  = ((λ a, (a, "not_finished")) <$> partials "" ts, Failed (reraised e)).
Proof.
  intros Hsend Hbreak Hfuel.
  rewrite (get_chat_response_stream_fails _ _ _ ts e); [done| |done].
  right. by exists s.
Qed.

Lemma broken_stream_delivers_partials_witness :
  (get_chat_response_stream 7 "hi" 4 (fresh_helper (interrupted_model ["hel"; "lo"]))).1
  = ([("hel", "not_finished"); ("hello", "not_finished")], Failed (wrap connection_error)).
Proof.
  apply (broken_stream_delivers_partials 7 "hi"
           (fresh_helper (interrupted_model ["hel"; "lo"]))
           (interrupted_stream ["hel"; "lo"]) ["hel"; "lo"] connection_error 4).
  - reflexivity.
  - split; [|left; reflexivity].
    intros i t Hi. exists {| text := Return t |}. cbn. by rewrite Hi.
  - cbn. lia.
Defined.

Lemma run_endless chat_id query s fuel :
  endless s →
  ∀ i answer self,
    (run chat_id query fuel (GenStreaming s i answer) self).1.2 = Pending ∧
    (run chat_id query fuel (GenStreaming s i answer) self).2 = self.
Proof.
  intros Hs. induction fuel as [|fuel IH]; intros i answer self; [done|].
  destruct (Hs i) as (t & chunk & Hev & Htext).
  cbn [run]. rewrite (step_chunk _ _ _ _ _ _ chunk t Hev Htext).
  destruct (decide (t = "")); [apply IH|].
  destruct (IH (S i) (answer +:+ t) self) as [Ho Hst].
  by destruct (run _ _ _ _ _) as [[ys o] self'].
Qed.

(** X17. The generator has no cut-off of its own: on a stream that never
    ends it never finishes, however long it is drained, and the exchange
    is never stored. *)
Theorem endless_stream_never_finishes chat_id query self s fuel :
  send_message_stream (model self) (forwarded self chat_id) query = Return s →
  endless s →
  (get_chat_response_stream chat_id query fuel self).1.2 = Pending ∧
  forwarded (get_chat_response_stream chat_id query fuel self).2 chat_id
    = forwarded self chat_id.
Proof.
  unfold get_chat_response_stream. intros Hsend Hs.
  destruct fuel as [|fuel]; [done|].
  cbn [run]. rewrite step_created_eq. cbv zeta. unfold forwarded in Hsend. rewrite Hsend.
  destruct (run_endless chat_id query s fuel Hs 0 ""
              (with_conversations self (ensured chat_id (conversations self))))
    as [Ho Hst].
  split; [done|]. rewrite Hst. unfold forwarded. cbn. apply ensured_get.
Qed.

Lemma endless_stream_never_finishes_witness :
  (get_chat_response_stream 7 "hi" 50 (talked_helper (endless_model "a"))).1.2 = Pending ∧
  forwarded (get_chat_response_stream 7 "hi" 50 (talked_helper (endless_model "a"))).2 7
    = forwarded (talked_helper (endless_model "a")) 7.
Proof.
  apply (endless_stream_never_finishes 7 "hi" (talked_helper (endless_model "a"))
           {| events := λ _, Chunk {| text := Return "a" |}; final_history := [] |} 50).
  - reflexivity.
  - intros i. exists "a", {| text := Return "a" |}. split; reflexivity.
Defined.

(** X18. Conversations are isolated: a send on one chat id, successful or
    not, does not change what a later send or statistics call on another
    chat id returns. *)
Theorem conversations_isolated chat_id other query query' self :
  other ≠ chat_id →
  (get_chat_response other query' (get_chat_response chat_id query self).2).1
    = (get_chat_response other query' self).1 ∧
  (get_conversation_stats other (get_chat_response chat_id query self).2).1
    = (get_conversation_stats other self).1.
Proof.
  intros Hne.
  destruct (get_chat_response_effect chat_id query self) as (c' & -> & Hc').
  assert (Hlook : c' !! other = conversations self !! other).
  { apply (touches_only_other chat_id); [|done]. unfold touches_only. tauto. }
  split.
  - rewrite !get_chat_response_eq. cbv zeta.
    cbn [model conversations with_conversations]. rewrite Hlook.
    destruct (send_message_async _ _ _) as [e|[response chat_history]]; [done|].
    destruct (text response) as [e|answer]; [done|].
    by destruct (count_tokens_async _ _).
  - rewrite !get_conversation_stats_eq. cbv zeta.
    cbn [model conversations with_conversations]. rewrite Hlook.
    by destruct (count_tokens_async _ _).
Qed.

Lemma conversations_isolated_witness :
  (get_chat_response 8 "yo"
     (get_chat_response 7 "more" (talked_helper (canned_model "ok" ["ok"]))).2).1
    = (get_chat_response 8 "yo" (talked_helper (canned_model "ok" ["ok"]))).1 ∧
  (get_conversation_stats 8
     (get_chat_response 7 "more" (talked_helper (canned_model "ok" ["ok"]))).2).1
    = (get_conversation_stats 8 (talked_helper (canned_model "ok" ["ok"]))).1.
Proof.
  apply (conversations_isolated 7 8 "more" "yo" (talked_helper (canned_model "ok" ["ok"]))).
  discriminate.
Defined.

(** ** Cancellation

    A [CancelledError] is not an [Exception]: it leaves both methods as
    it is, after the same effects on the dictionary as any other failure. *)

Example cancelled_send :
  get_chat_response 7 "hi" (fresh_helper cancelled_model)
  = (Raise cancelled_error,
     with_conversations (fresh_helper cancelled_model) {[ 7%Z := [] ]}).
Proof. reflexivity. Qed.

Example cancelled_stream :
  get_chat_response_stream 7 "hi" 5 (fresh_helper (cancelled_stream_model ["hel"]))
  = ([("hel", "not_finished")], Failed cancelled_error,
     with_conversations (fresh_helper (cancelled_stream_model ["hel"])) {[ 7%Z := [] ]}).
Proof. reflexivity. Qed.
